(** * Student marks dashboard: the filter-and-aggregate pipeline

    A shallow embedding of [Lab7_Assignment.py].  The script loads a table of
    student marks, derives an average and a total per row, filters the table
    by location, age range and minimum average, and derives the views the
    page shows.

    Conventions of the embedding:
    - a pandas [float64] is a rational number ([Q]) and its arithmetic is
      exact; [NaN] only arises as an aggregate of too few values and is
      [None];
    - [.round(2)] is round-half-to-even at two decimals, as numpy rounds;
    - missing cells are not modelled: every cell holds a value;
    - the table read from the source is a frame of named columns; once
      loaded, its rows are records with whole-number marks;
    - the widgets, the charts and the styling of the page are left out: the
      filter is given, and the page is the tables it derives. *)

From Stdlib Require Import List ZArith QArith Qround String Ascii Bool Lia
  Lqa.
From Stdlib Require Import Permutation Sorted DecimalString DecimalZ DecimalN.
Import ListNotations.

Local Open Scope string_scope.
Local Open Scope Z_scope.
Local Open Scope list_scope.

Notation length := Datatypes.length (only parsing).

(** ** Rational arithmetic for [float64] columns *)

Definition Qsum (xs : list Q) : Q := fold_right Qplus (0%Q) xs.

Definition Zsum (xs : list Z) : Z := fold_right Z.add 0 xs.

(** [Series.mean()]: the sum over the count; [NaN] on no values. *)
Definition mean (xs : list Q) : option Q :=
  match xs with
  | [] => None
  | _ => Some (Qsum xs / inject_Z (Z.of_nat (length xs)))%Q
  end.

(** [numpy.rint]: the nearest integer, ties to the even one. *)
Definition rint (x : Q) : Z :=
  let f := Qfloor x in
  match Qcompare (x - inject_Z f) (1 # 2) with
  | Lt => f
  | Gt => f + 1
  | Eq => if Z.even f then f else f + 1
  end.

(** [.round(2)]: scale by 100, round to the nearest integer, scale back.
    The result is kept in lowest terms, so equal numbers are equal terms. *)
Definition round2 (x : Q) : Q := Qred (rint (x * 100) # 100).

(** ** Errors raised by the frame operations *)

Inductive error : Type :=
| KeyError (column : string)
| TypeError
| ValueError
| IndexError.

Inductive result (A : Type) : Type :=
| Ok (a : A)
| Raise (e : error).

Arguments Ok {A} a.
Arguments Raise {A} e.

Definition bind {A B : Type} (c : result A) (k : A -> result B) : result B :=
  match c with
  | Ok a => k a
  | Raise e => Raise e
  end.

Notation "x <- c ;; k" := (bind c (fun x => k))
  (at level 61, c at next level, right associativity).

Fixpoint mapM {A B : Type} (f : A -> result B) (l : list A) : result (list B) :=
  match l with
  | [] => Ok []
  | a :: l' => b <- f a ;; bs <- mapM f l' ;; Ok (b :: bs)
  end.

(** ** The table read from the source file *)

Inductive value : Type :=
| VInt (z : Z)
| VFloat (q : Q)
| VStr (s : string).

(** A frame is its header and its rows; a cell is found by the position of
    its column in the header. *)
Record DataFrame : Type := {
  columns : list string;
  rows : list (list value)
}.

Fixpoint index_of (c : string) (cols : list string) : option nat :=
  match cols with
  | [] => None
  | c' :: cs => if String.eqb c c' then Some 0%nat
                else option_map S (index_of c cs)
  end.

Definition get_loc (df : DataFrame) (c : string) : result nat :=
  match index_of c (columns df) with
  | Some i => Ok i
  | None => Raise (KeyError c)
  end.

Definition cell (r : list value) (i : nat) : result value :=
  match nth_error r i with
  | Some v => Ok v
  | None => Raise IndexError
  end.

(** [df[[c1, ..., cn]]]: the sub-frame of the named columns; a name that is
    not in the header raises [KeyError] (pandas lists every missing name in
    the message, the embedding keeps the first). *)
Definition getitems (df : DataFrame) (cs : list string) : result DataFrame :=
  idx <- mapM (get_loc df) cs ;;
  rs <- mapM (fun r => mapM (cell r) idx) (rows df) ;;
  Ok {| columns := cs; rows := rs |}.

Definition to_number (v : value) : result Q :=
  match v with
  | VInt z => Ok (inject_Z z)
  | VFloat q => Ok q
  | VStr _ => Raise TypeError
  end.

Definition to_int (v : value) : option Z :=
  match v with
  | VInt z => Some z
  | _ => None
  end.

Fixpoint all_ints (r : list value) : option (list Z) :=
  match r with
  | [] => Some []
  | v :: r' =>
      match to_int v, all_ints r' with
      | Some z, Some zs => Some (z :: zs)
      | _, _ => None
      end
  end.

(** [.mean(axis=1)]: the mean of each row, a float. *)
Definition row_mean (r : list value) : result value :=
  xs <- mapM to_number r ;;
  Ok (VFloat (Qsum xs / inject_Z (Z.of_nat (length xs)))).

Definition mean_axis1 (df : DataFrame) : result (list value) :=
  mapM row_mean (rows df).

(** [.sum(axis=1)]: the sum of each row; an integer when the cells are. *)
Definition row_sum (r : list value) : result value :=
  match all_ints r with
  | Some zs => Ok (VInt (Zsum zs))
  | None => xs <- mapM to_number r ;; Ok (VFloat (Qsum xs))
  end.

Definition sum_axis1 (df : DataFrame) : result (list value) :=
  mapM row_sum (rows df).

(** [Series.round(2)]. *)
Definition round_value (v : value) : value :=
  match v with
  | VFloat q => VFloat (round2 q)
  | _ => v
  end.

Definition round_series (s : list value) : list value := map round_value s.

Fixpoint replace_nth (i : nat) (v : value) (r : list value) : list value :=
  match r, i with
  | [], _ => []
  | _ :: r', O => v :: r'
  | x :: r', S i' => x :: replace_nth i' v r'
  end.

Fixpoint zip_with {A B C : Type} (f : A -> B -> C) (l : list A) (m : list B)
  : list C :=
  match l, m with
  | a :: l', b :: m' => f a b :: zip_with f l' m'
  | _, _ => []
  end.

(** [df[c] = s]: overwrite column [c], or append it when the header does
    not have it; [s] must have one value per row. *)
Definition setitem (df : DataFrame) (c : string) (s : list value)
  : result DataFrame :=
  if negb (Nat.eqb (length s) (length (rows df))) then Raise ValueError
  else
    match index_of c (columns df) with
    | Some i =>
        Ok {| columns := columns df;
              rows := zip_with (fun r v => replace_nth i v r) (rows df) s |}
    | None =>
        Ok {| columns := columns df ++ [c];
              rows := zip_with (fun r v => r ++ [v]) (rows df) s |}
    end.

Definition subject_cols : list string :=
  ["sql_marks"; "excel_marks"; "python_marks"; "power_bi_marks";
   "english_marks"].

(** [load_data], applied to the frame [pd.read_csv] returns.  The cache
    of [st.cache_data] is left out: the function is pure. *)
Definition load_data (csv : DataFrame) : result DataFrame :=
  sub <- getitems csv subject_cols ;;
  avg <- mean_axis1 sub ;;
  df <- setitem csv "average_marks" (round_series avg) ;;
  sub' <- getitems df subject_cols ;;
  tot <- sum_axis1 sub' ;;
  setitem df "total_marks" tot.

(** The cell of row [r] under column [c]. *)
Definition lookup (df : DataFrame) (r : list value) (c : string)
  : option value :=
  match index_of c (columns df) with
  | Some i => nth_error r i
  | None => None
  end.

(** ** Student records: the rows of the loaded table *)

(** A row of the loaded table whose marks are whole numbers: the eight
    columns of the source and the two derived ones. *)
Record Student : Type := {
  student_id : string;
  location : string;
  age : Z;
  sql_marks : Z;
  excel_marks : Z;
  python_marks : Z;
  power_bi_marks : Z;
  english_marks : Z;
  average_marks : Q;
  total_marks : Z
}.

(** The five mark columns, in the order the script lists them. *)
Definition subjects : list (Student -> Z) :=
  [sql_marks; excel_marks; python_marks; power_bi_marks; english_marks].

Definition subject_names : list string :=
  ["SQL"; "Excel"; "Python"; "Power BI"; "English"].

Definition marks (r : Student) : list Z := map (fun c => c r) subjects.

(** What [load_data] derives, said of a record: the average is the mean of
    the five marks rounded to two decimals, the total is their sum. *)
Definition derived (r : Student) : Prop :=
  average_marks r = round2 (Qsum (map inject_Z (marks r)) / 5) /\
  total_marks r = Zsum (marks r).

(** ** The sidebar filters *)

Record FilterSpec : Type := {
  selected_location : string;
  age_range : Z * Z;
  selected_subjects : list string;
  min_avg : Z
}.

(** The three masks of the script. *)
Definition location_mask (f : FilterSpec) (r : Student) : bool :=
  String.eqb (location r) (selected_location f).

Definition age_mask (f : FilterSpec) (r : Student) : bool :=
  (fst (age_range f) <=? age r) && (age r <=? snd (age_range f)).

Definition average_mask (f : FilterSpec) (r : Student) : bool :=
  Qle_bool (inject_Z (min_avg f)) (average_marks r).

(** [filtered_df]: a copy of the table, narrowed by each filter in turn. *)
Definition filtered_df (df : list Student) (f : FilterSpec) : list Student :=
  let filtered := df in
  let filtered :=
    if negb (String.eqb (selected_location f) "All")
    then filter (location_mask f) filtered
    else filtered in
  let filtered := filter (age_mask f) filtered in
  filter (average_mask f) filtered.

(** The two tables the script holds once the filters have run. *)
Record Tables : Type := {
  tbl_df : list Student;
  tbl_filtered_df : list Student
}.

Definition apply_filters (df : list Student) (f : FilterSpec) : Tables :=
  {| tbl_df := df; tbl_filtered_df := filtered_df df f |}.

(** ** Sorting *)

Section Sorting.
Context {A : Type}.
(** [ahead x y]: [x] may stand immediately before [y]. *)
Variable ahead : A -> A -> bool.

Fixpoint insert (x : A) (l : list A) : list A :=
  match l with
  | [] => [x]
  | y :: l' => if ahead x y then x :: l else y :: insert x l'
  end.

(** The sort of the embedding is stable: an element is put before the
    first one it may stand ahead of, so elements that compare equal keep
    their order.  It stands for the sorts pandas runs through numpy, which
    are taken to keep the order of equal keys, as the merge sort does and
    as the default sort does on arrays as short as these. *)
Definition sort (l : list A) : list A := fold_right insert [] l.
End Sorting.

(** Descending order of floats, [NaN] last. *)
Definition ge_float (x y : option Q) : bool :=
  match x, y with
  | Some a, Some b => Qle_bool b a
  | Some _, None => true
  | None, Some _ => false
  | None, None => true
  end.

(** [nlargest(n, key)] with the default [keep='first']: the [n] rows of
    largest key, largest first; among equal keys the earlier rows come
    first and are kept first. *)
Definition nlargest {A : Type} (n : nat) (key : A -> Q) (l : list A) : list A :=
  firstn n (sort (fun x y => Qle_bool (key y) (key x)) l).

(** ** Grouping *)

(** [groupby(key)]: one group per distinct key, the keys in ascending
    order, each group holding its rows in table order. *)
Definition groupby {A : Type} (key : A -> string) (l : list A)
  : list (string * list A) :=
  map (fun k => (k, filter (fun r => String.eqb (key r) k) l))
      (sort String.leb (nodup string_dec (map key l))).

(** ** The views *)

(** Average marks by location:
    [groupby('location')['average_marks'].mean().sort_values(ascending=False)],
    one row per location with the mean of its averages, largest mean
    first. *)
Definition location_avg (filtered : list Student) : list (string * option Q) :=
  sort (fun x y => ge_float (snd x) (snd y))
       (map (fun g => (fst g, mean (map average_marks (snd g))))
            (groupby location filtered)).

Definition subject_mapping : list ((Student -> Z) * string) :=
  [(sql_marks, "SQL"); (excel_marks, "Excel"); (python_marks, "Python");
   (power_bi_marks, "Power BI"); (english_marks, "English")].

Definition selected (name : string) (sel : list string) : bool :=
  existsb (String.eqb name) sel.

(** The (subject, mark) pairs of the box plot. *)
Definition subject_data (filtered : list Student) (sel : list string)
  : list (string * Z) :=
  flat_map
    (fun m => if selected (snd m) sel
              then map (fun r => (snd m, fst m r)) filtered
              else [])
    subject_mapping.

Definition column (c : Student -> Z) (l : list Student) : list Q :=
  map (fun r => inject_Z (c r)) l.

(** The heat map: per location, the mean of each of the five subjects,
    rounded to two decimals. *)
Definition heatmap_data (filtered : list Student)
  : list (string * list (option Q)) :=
  map (fun g =>
         (fst g, map (fun c => option_map round2 (mean (column c (snd g))))
                     subjects))
      (groupby location filtered).

(** The top performers table: five columns of the ten largest averages.
    Its row labels 1, 2, ... are the positions in the list. *)
Record Performer : Type := {
  p_student_id : string;
  p_location : string;
  p_age : Z;
  p_average_marks : Q;
  p_total_marks : Z
}.

Definition performer (r : Student) : Performer :=
  {| p_student_id := student_id r;
     p_location := location r;
     p_age := age r;
     p_average_marks := average_marks r;
     p_total_marks := total_marks r |}.

Definition top_students (filtered : list Student) : list Performer :=
  map performer (nlargest 10 average_marks filtered).

(** ** Counts and summaries *)

(** [unique()]: the distinct values, in the order they first appear. *)
Fixpoint unique {A : Type} (eqb : A -> A -> bool) (l : list A) : list A :=
  match l with
  | [] => []
  | x :: l' => x :: filter (fun y => negb (eqb x y)) (unique eqb l')
  end.

Definition count {A : Type} (eqb : A -> A -> bool) (x : A) (l : list A) : nat :=
  length (filter (eqb x) l).

(** [value_counts()]: each distinct value with the number of its rows, the
    most frequent first. *)
Definition value_counts {A : Type} (eqb : A -> A -> bool) (l : list A)
  : list (A * nat) :=
  sort (fun x y => Nat.leb (snd y) (snd x))
       (map (fun k => (k, count eqb k l)) (unique eqb l)).

Definition location_counts (filtered : list Student) : list (string * nat) :=
  value_counts String.eqb (map location filtered).

(** [value_counts().sort_index()]: the counts in ascending order of age. *)
Definition age_counts (filtered : list Student) : list (Z * nat) :=
  sort (fun x y => Z.leb (fst x) (fst y))
       (value_counts Z.eqb (map age filtered)).

Definition Zmax_list (xs : list Z) : option Z :=
  match xs with
  | [] => None
  | x :: xs' => Some (fold_left Z.max xs' x)
  end.

(** Best subject performance: per subject its name, its highest mark and
    its mean mark rounded to two decimals. *)
Definition best_subjects (filtered : list Student)
  : list (string * option Z * option Q) :=
  map (fun m => (snd m, Zmax_list (map (fst m) filtered),
                 option_map round2 (mean (column (fst m) filtered))))
      subject_mapping.

(** The key metrics, as numbers: the text the page formats them into is
    left out. *)
Record Metrics : Type := {
  m_total_students : nat;
  m_delta : Z;
  m_average_age : option Q;
  m_avg_overall_score : option Q;
  m_top_score : option Q;
  m_locations : nat
}.

(** ** Descriptive statistics *)

(** The sample variance ([ddof = 1]); [NaN] on fewer than two values. *)
Definition variance (xs : list Q) : option Q :=
  match mean xs with
  | Some m =>
      if (length xs <=? 1)%nat then None
      else Some (Qsum (map (fun x => (x - m) * (x - m)) xs)
                 / inject_Z (Z.of_nat (length xs) - 1))%Q
  | None => None
  end.

(** The square root of [v >= 0], rounded to two decimals: the nearest
    hundredth to the root, found with the integer square root. *)
Definition round2_sqrt (v : Q) : Q :=
  let x := (v * 10000)%Q in
  let f := Z.sqrt (Qfloor x) in
  let half := (inject_Z f + (1 # 2))%Q in
  let r := match Qcompare x (half * half) with
           | Lt => f
           | Gt => f + 1
           | Eq => if Z.even f then f else f + 1
           end in
  Qred (r # 100).

(** [Series.quantile(p)] with linear interpolation between the two order
    statistics around position [p * (n - 1)]. *)
Definition quantile (p : Q) (xs : list Q) : option Q :=
  match sort Qle_bool xs with
  | [] => None
  | (x0 :: _) as s =>
      let pos := (p * inject_Z (Z.of_nat (length s) - 1))%Q in
      let lo := Qfloor pos in
      let a := nth (Z.to_nat lo) s x0 in
      let b := nth (Z.to_nat (lo + 1)) s a in
      Some (a + (b - a) * (pos - inject_Z lo))%Q
  end.

Definition Qmin_list (xs : list Q) : option Q :=
  match xs with
  | [] => None
  | x :: xs' => Some (fold_left (fun m y => if Qle_bool y m then y else m) xs' x)
  end.

Definition Qmax_list (xs : list Q) : option Q :=
  match xs with
  | [] => None
  | x :: xs' => Some (fold_left (fun m y => if Qle_bool m y then y else m) xs' x)
  end.

Record Describe : Type := {
  d_count : Q;
  d_mean : option Q;
  d_std : option Q;
  d_min : option Q;
  d_25 : option Q;
  d_50 : option Q;
  d_75 : option Q;
  d_max : option Q
}.

(** [.describe().round(2)] of one numeric column. *)
Definition describe (xs : list Q) : Describe :=
  {| d_count := round2 (inject_Z (Z.of_nat (length xs)));
     d_mean := option_map round2 (mean xs);
     d_std := option_map round2_sqrt (variance xs);
     d_min := option_map round2 (Qmin_list xs);
     d_25 := option_map round2 (quantile (1 # 4) xs);
     d_50 := option_map round2 (quantile (1 # 2) xs);
     d_75 := option_map round2 (quantile (3 # 4) xs);
     d_max := option_map round2 (Qmax_list xs) |}.

Definition key_metrics (df filtered : list Student) : Metrics :=
  {| m_total_students := length filtered;
     m_delta := Z.of_nat (length filtered) - Z.of_nat (length df);
     m_average_age := mean (map (fun r => inject_Z (age r)) filtered);
     m_avg_overall_score := mean (map average_marks filtered);
     m_top_score := Qmax_list (map average_marks filtered);
     m_locations := length (unique String.eqb (map location filtered)) |}.

(** The statistics table: the five mark columns described, then renamed. *)
Definition stats_df (filtered : list Student) : list (string * Describe) :=
  combine subject_names (map (fun c => describe (column c filtered)) subjects).

(** ** The export *)

Definition dquote : ascii := "034"%char.
Definition LF : ascii := "010"%char.
Definition CR : ascii := "013"%char.
Definition comma : ascii := ","%char.

(** The characters that make the writer quote a field. *)
Definition special (c : ascii) : bool :=
  Ascii.eqb c comma || Ascii.eqb c dquote || Ascii.eqb c LF || Ascii.eqb c CR.

Fixpoint needs_quoting (s : string) : bool :=
  match s with
  | EmptyString => false
  | String c s' => special c || needs_quoting s'
  end.

(** A quote inside a quoted field is written twice. *)
Fixpoint escape (s : string) : string :=
  match s with
  | EmptyString => EmptyString
  | String c s' =>
      if Ascii.eqb c dquote then String dquote (String dquote (escape s'))
      else String c (escape s')
  end.

Definition write_field (s : string) : string :=
  if needs_quoting s
  then String dquote (escape s ++ String dquote EmptyString)%string
  else s.

Fixpoint join_fields (fs : list string) : string :=
  match fs with
  | [] => EmptyString
  | [f] => write_field f
  | f :: fs' => (write_field f ++ String comma (join_fields fs'))%string
  end.

Definition write_row (fs : list string) : string :=
  (join_fields fs ++ String LF EmptyString)%string.

(** [str] of an integer and of a natural number, in decimal. *)
Definition str_int (z : Z) : string := NilZero.string_of_int (Z.to_int z).

Definition str_nat (n : N) : string := NilEmpty.string_of_uint (N.to_uint n).

(** [repr] of a float with at most two decimals, as every average is: the
    integer part, the point, and one or two decimals. *)
Definition repr_float (q : Q) : string :=
  let h := rint (q * 100) in
  let a := Z.to_N (Z.abs h) in
  ((if (h <? 0)%Z then "-" else "")
   ++ str_nat (a / 100) ++ "."
   ++ (if (a mod 10 =? 0)%N then str_nat (a mod 100 / 10)
       else str_nat (a mod 100 / 10) ++ str_nat (a mod 10)))%string.

Definition csv_header : list string :=
  ["student_id"; "location"; "age"; "sql_marks"; "excel_marks";
   "python_marks"; "power_bi_marks"; "english_marks"; "average_marks";
   "total_marks"].

Definition csv_fields (r : Student) : list string :=
  [student_id r; location r; str_int (age r); str_int (sql_marks r);
   str_int (excel_marks r); str_int (python_marks r);
   str_int (power_bi_marks r); str_int (english_marks r);
   repr_float (average_marks r); str_int (total_marks r)].

Fixpoint write_rows (rs : list (list string)) : string :=
  match rs with
  | [] => EmptyString
  | r :: rs' => (write_row r ++ write_rows rs')%string
  end.

(** [to_csv(index=False)]: the header line, then a line per row. *)
Definition to_csv (l : list Student) : string :=
  write_rows (csv_header :: map csv_fields l).

(** ** Reading the export back *)

Definition obind {A B : Type} (o : option A) (k : A -> option B) : option B :=
  match o with
  | Some a => k a
  | None => None
  end.

Notation "'let?' x := o 'in' k" := (obind o (fun x => k))
  (at level 10, x name, o at level 100, k at level 200).

Fixpoint traverse {A B : Type} (f : A -> option B) (l : list A)
  : option (list B) :=
  match l with
  | [] => Some []
  | a :: l' => let? b := f a in let? bs := traverse f l' in Some (b :: bs)
  end.

Definition snoc (s : string) (c : ascii) : string :=
  (s ++ String c EmptyString)%string.

(** The states of the tokenizer: at the start of a field, inside an
    unquoted field, inside a quoted field, and just after a quote met inside
    a quoted field. *)
Inductive pstate : Type :=
| FieldStart
| InField
| InQuoted
| QuoteSeen.

Definition is_eol (c : ascii) : bool := Ascii.eqb c LF || Ascii.eqb c CR.

(** What is left of the text after the line end [c]: a CR takes the LF
    that follows it. *)
Definition after_eol (c : ascii) (s : string) : string :=
  if Ascii.eqb c CR
  then match s with
       | String c2 s2 => if Ascii.eqb c2 LF then s2 else s
       | EmptyString => s
       end
  else s.

(** The comma-separated text, cut into rows of fields.  [fld] is the field
    read so far and [row] the fields of the line read so far.  A line ends
    at LF, CR or CR LF; a line with nothing on it is skipped. *)
Fixpoint tokenize (st : pstate) (fld : string) (row : list string)
  (s : string) : option (list (list string)) :=
  match s with
  | EmptyString =>
      match st with
      | FieldStart =>
          match row with
          | [] => Some []
          | _ => Some [row ++ [fld]]
          end
      | InField | QuoteSeen => Some [row ++ [fld]]
      | InQuoted => None
      end
  | String c s' =>
      match st with
      | FieldStart =>
          if Ascii.eqb c dquote then tokenize InQuoted EmptyString row s'
          else if Ascii.eqb c comma
          then tokenize FieldStart EmptyString (row ++ [EmptyString]) s'
          else if is_eol c then
            match row with
            | [] => tokenize FieldStart EmptyString [] (after_eol c s')
            | _ => option_map (cons (row ++ [EmptyString]))
                     (tokenize FieldStart EmptyString [] (after_eol c s'))
            end
          else tokenize InField (String c EmptyString) row s'
      | InField =>
          if Ascii.eqb c comma
          then tokenize FieldStart EmptyString (row ++ [fld]) s'
          else if is_eol c
          then option_map (cons (row ++ [fld]))
                 (tokenize FieldStart EmptyString [] (after_eol c s'))
          else tokenize InField (snoc fld c) row s'
      | InQuoted =>
          if Ascii.eqb c dquote then tokenize QuoteSeen fld row s'
          else tokenize InQuoted (snoc fld c) row s'
      | QuoteSeen =>
          if Ascii.eqb c dquote then tokenize InQuoted (snoc fld dquote) row s'
          else if Ascii.eqb c comma
          then tokenize FieldStart EmptyString (row ++ [fld]) s'
          else if is_eol c
          then option_map (cons (row ++ [fld]))
                 (tokenize FieldStart EmptyString [] (after_eol c s'))
          else tokenize InField (snoc fld c) row s'
      end
  end.

Definition parse_int (s : string) : option Z :=
  option_map Z.of_int (NilZero.int_of_string s).

(** The text before the first point and the text after it. *)
Fixpoint split_point (s : string) : option (string * string) :=
  match s with
  | EmptyString => None
  | String c s' =>
      if Ascii.eqb c "."%char then Some (EmptyString, s')
      else option_map (fun p => (String c (fst p), snd p)) (split_point s')
  end.

Definition nonempty (s : string) : bool :=
  match s with
  | EmptyString => false
  | String _ _ => true
  end.

(** A decimal [digits.digits], read as the number it denotes, in lowest
    terms. *)
Definition parse_decimal (s : string) : option Q :=
  let? p := split_point s in
  if nonempty (fst p) && nonempty (snd p) then
    let? i := NilEmpty.uint_of_string (fst p) in
    let? f := NilEmpty.uint_of_string (snd p) in
    let den := (10 ^ Pos.of_nat (String.length (snd p)))%positive in
    Some (Qred ((Z.of_N (N.of_uint i) * Z.pos den + Z.of_N (N.of_uint f))
                # den))
  else None.

Definition parse_float (s : string) : option Q :=
  match s with
  | String c s' =>
      if Ascii.eqb c "-"%char then option_map Qopp (parse_decimal s')
      else parse_decimal s
  | EmptyString => None
  end.

Definition parse_student (fs : list string) : option Student :=
  match fs with
  | [id; loc; a; m1; m2; m3; m4; m5; avg; tot] =>
      let? a := parse_int a in
      let? m1 := parse_int m1 in
      let? m2 := parse_int m2 in
      let? m3 := parse_int m3 in
      let? m4 := parse_int m4 in
      let? m5 := parse_int m5 in
      let? avg := parse_float avg in
      let? tot := parse_int tot in
      Some {| student_id := id; location := loc; age := a;
              sql_marks := m1; excel_marks := m2; python_marks := m3;
              power_bi_marks := m4; english_marks := m5;
              average_marks := avg; total_marks := tot |}
  | _ => None
  end.

(** The reader of the export: the first line must be the header of the
    export, and every other line is read at the types of its columns. *)
Definition read_csv (text : string) : option (list Student) :=
  match tokenize FieldStart EmptyString [] text with
  | Some (header :: body) =>
      if list_eq_dec string_dec header csv_header
      then traverse parse_student body
      else None
  | _ => None
  end.

(** ** The page *)

(** What the page derives from a filtered table that is not empty, in the
    order of the script.  The charts are left out: each is drawn from one
    of these tables or from the filtered table itself. *)
Record Views : Type := {
  v_metrics : Metrics;
  v_location_avg : list (string * option Q);
  v_subject_data : list (string * Z);
  v_heatmap_data : list (string * list (option Q));
  v_stats_df : list (string * Describe);
  v_location_counts : list (string * nat);
  v_age_counts : list (Z * nat);
  v_top_students : list Performer;
  v_best_subjects : list (string * option Z * option Q);
  v_csv : string
}.

Definition views (df filtered : list Student) (f : FilterSpec) : Views :=
  {| v_metrics := key_metrics df filtered;
     v_location_avg := location_avg filtered;
     v_subject_data := subject_data filtered (selected_subjects f);
     v_heatmap_data := heatmap_data filtered;
     v_stats_df := stats_df filtered;
     v_location_counts := location_counts filtered;
     v_age_counts := age_counts filtered;
     v_top_students := top_students filtered;
     v_best_subjects := best_subjects filtered;
     v_csv := to_csv filtered |}.

(** What the main area shows: a warning that no data matches, or the
    views. *)
Inductive Page : Type :=
| NoMatch
| Rendered (v : Views).

Definition dashboard (df : list Student) (f : FilterSpec) : Page :=
  let filtered := filtered_df df f in
  if (length filtered =? 0)%nat then NoMatch
  else Rendered (views df filtered f).

(** ** A loaded frame read as student records *)

Definition as_str (v : value) : option string :=
  match v with
  | VStr s => Some s
  | _ => None
  end.

Definition as_float (v : value) : option Q :=
  match v with
  | VFloat q => Some q
  | _ => None
  end.

(** An identifier is kept as its text. *)
Definition as_token (v : value) : option string :=
  match v with
  | VStr s => Some s
  | VInt z => Some (str_int z)
  | VFloat _ => None
  end.

Definition student_of (df : DataFrame) (r : list value) : option Student :=
  let get c := lookup df r c in
  let? id := obind (get "student_id") as_token in
  let? loc := obind (get "location") as_str in
  let? a := obind (get "age") to_int in
  let? m1 := obind (get "sql_marks") to_int in
  let? m2 := obind (get "excel_marks") to_int in
  let? m3 := obind (get "python_marks") to_int in
  let? m4 := obind (get "power_bi_marks") to_int in
  let? m5 := obind (get "english_marks") to_int in
  let? avg := obind (get "average_marks") as_float in
  let? tot := obind (get "total_marks") to_int in
  Some {| student_id := id; location := loc; age := a;
          sql_marks := m1; excel_marks := m2; python_marks := m3;
          power_bi_marks := m4; english_marks := m5;
          average_marks := avg; total_marks := tot |}.

(** The rows of a frame that has the ten columns, with whole-number marks. *)
Definition students (df : DataFrame) : option (list Student) :=
  traverse (student_of df) (rows df).

(** * The vocabulary of the properties *)

(** [subseq l m]: [l] is [m] with some elements left out, the others in
    the same order. *)
Inductive subseq {A : Type} : list A -> list A -> Prop :=
| subseq_nil : subseq [] []
| subseq_skip x l m : subseq l m -> subseq l (x :: m)
| subseq_keep x l m : subseq l m -> subseq (x :: l) (x :: m).

(** Widening one bound of a filter, the others unchanged. *)
Inductive widens : FilterSpec -> FilterSpec -> Prop :=
| widen_location f :
    widens f {| selected_location := "All";
                age_range := age_range f;
                selected_subjects := selected_subjects f;
                min_avg := min_avg f |}
| widen_age f lo hi :
    lo <= fst (age_range f) -> snd (age_range f) <= hi ->
    widens f {| selected_location := selected_location f;
                age_range := (lo, hi);
                selected_subjects := selected_subjects f;
                min_avg := min_avg f |}
| widen_threshold f m :
    m <= min_avg f ->
    widens f {| selected_location := selected_location f;
                age_range := age_range f;
                selected_subjects := selected_subjects f;
                min_avg := m |}.

(** The three masks as one test. *)
Definition keeps (f : FilterSpec) (r : Student) : bool :=
  (String.eqb (selected_location f) "All" || location_mask f r)
  && age_mask f r && average_mask f r.

(** The location means as the specification words them: the groups taken
    in the order their locations first appear in the filtered table, then
    sorted by mean, largest first, equal means keeping that order. *)
Definition location_avg_first_seen (filtered : list Student)
  : list (string * option Q) :=
  sort (fun x y => ge_float (snd x) (snd y))
       (map (fun k =>
               (k, mean (map average_marks
                             (filter (fun r => String.eqb (location r) k)
                                     filtered))))
            (unique String.eqb (map location filtered))).

(** A mean that is a number equal to [m]. *)
Definition float_is (m : Q) (x : option Q) : bool :=
  match x with
  | Some q => Qeq_bool q m
  | None => false
  end.

(** The filter with another selection of subjects. *)
Definition with_subjects (f : FilterSpec) (sel : list string) : FilterSpec :=
  {| selected_location := selected_location f;
     age_range := age_range f;
     selected_subjects := sel;
     min_avg := min_avg f |}.

(** Every row of a frame has a cell for every column of the header. *)
Definition rectangular (df : DataFrame) : Prop :=
  Forall (fun r => length r = length (columns df)) (rows df).

(** The cells of the mark columns are numbers. *)
Definition numeric_marks (df : DataFrame) : Prop :=
  forall r c v, In r (rows df) -> In c subject_cols ->
                lookup df r c = Some v -> exists q, to_number v = Ok q.

(** A row the writer turns into a line that is not blank. *)
Definition row_shows (fs : list string) : Prop :=
  fs <> [] /\ fs <> [EmptyString].

(** ** Sample tables *)

(** A source of three students, two in NY and one in LA. *)
Definition sample_csv : DataFrame :=
  {| columns := ["student_id"; "location"; "age"; "sql_marks";
                 "excel_marks"; "python_marks"; "power_bi_marks";
                 "english_marks"];
     rows := [[VStr "S1"; VStr "NY"; VInt 20; VInt 80; VInt 90; VInt 70;
               VInt 60; VInt 100];
              [VStr "S2"; VStr "NY"; VInt 22; VInt 50; VInt 50; VInt 50;
               VInt 50; VInt 50];
              [VStr "S3"; VStr "LA"; VInt 25; VInt 100; VInt 100; VInt 100;
               VInt 100; VInt 100]] |}.

(** What [load_data] makes of it. *)
Definition sample_df : DataFrame :=
  {| columns := ["student_id"; "location"; "age"; "sql_marks";
                 "excel_marks"; "python_marks"; "power_bi_marks";
                 "english_marks"; "average_marks"; "total_marks"];
     rows := [[VStr "S1"; VStr "NY"; VInt 20; VInt 80; VInt 90; VInt 70;
               VInt 60; VInt 100; VFloat 80; VInt 400];
              [VStr "S2"; VStr "NY"; VInt 22; VInt 50; VInt 50; VInt 50;
               VInt 50; VInt 50; VFloat 50; VInt 250];
              [VStr "S3"; VStr "LA"; VInt 25; VInt 100; VInt 100; VInt 100;
               VInt 100; VInt 100; VFloat 100; VInt 500]] |}.

(** The same table as student records. *)
Definition student_1 : Student :=
  {| student_id := "S1"; location := "NY"; age := 20;
     sql_marks := 80; excel_marks := 90; python_marks := 70;
     power_bi_marks := 60; english_marks := 100;
     average_marks := 80; total_marks := 400 |}.

Definition student_2 : Student :=
  {| student_id := "S2"; location := "NY"; age := 22;
     sql_marks := 50; excel_marks := 50; python_marks := 50;
     power_bi_marks := 50; english_marks := 50;
     average_marks := 50; total_marks := 250 |}.

Definition student_3 : Student :=
  {| student_id := "S3"; location := "LA"; age := 25;
     sql_marks := 100; excel_marks := 100; python_marks := 100;
     power_bi_marks := 100; english_marks := 100;
     average_marks := 100; total_marks := 500 |}.

Definition sample : list Student := [student_1; student_2; student_3].

(** A source with the five mark columns and nothing else. *)
Definition marks_only_csv : DataFrame :=
  {| columns := ["sql_marks"; "excel_marks"; "python_marks";
                 "power_bi_marks"; "english_marks"];
     rows := [[VInt 80; VInt 90; VInt 70; VInt 60; VInt 100]] |}.

(** A source without the English marks. *)
Definition no_english_csv : DataFrame :=
  {| columns := ["student_id"; "location"; "age"; "sql_marks";
                 "excel_marks"; "python_marks"; "power_bi_marks"];
     rows := [[VStr "S1"; VStr "NY"; VInt 20; VInt 80; VInt 90; VInt 70;
               VInt 60]] |}.

(** Two students of equal average, the one in NY listed before the one in
    LA. *)
Definition tied : list Student :=
  [{| student_id := "S1"; location := "NY"; age := 20;
      sql_marks := 80; excel_marks := 80; python_marks := 80;
      power_bi_marks := 80; english_marks := 80;
      average_marks := 80; total_marks := 400 |};
   {| student_id := "S2"; location := "LA"; age := 21;
      sql_marks := 70; excel_marks := 90; python_marks := 80;
      power_bi_marks := 80; english_marks := 80;
      average_marks := 80; total_marks := 400 |}].

(** No location chosen, every age of the samples, every subject, no
    minimum. *)
Definition show_all : FilterSpec :=
  {| selected_location := "All"; age_range := (20, 25);
     selected_subjects := subject_names; min_avg := 0 |}.

Definition show_ny : FilterSpec :=
  {| selected_location := "NY"; age_range := (20, 25);
     selected_subjects := subject_names; min_avg := 0 |}.

(** A minimum that no average reaches. *)
Definition show_none : FilterSpec :=
  {| selected_location := "All"; age_range := (20, 25);
     selected_subjects := subject_names; min_avg := 101 |}.

(** ** The sidebar *)

(** The options of the location selector: "All", then the locations of the
    table, each once, in ascending order. *)
Definition all_locations (df : list Student) : list string :=
  "All" :: sort String.leb (unique String.eqb (map location df)).

Definition Zmin_list (xs : list Z) : option Z :=
  match xs with
  | [] => None
  | x :: xs' => Some (fold_left Z.min xs' x)
  end.

(** [int(df['age'].min())] and [int(df['age'].max())]: the ends of the age
    slider.  The minimum of no age is [NaN], which [int] refuses with a
    [ValueError]. *)
Definition age_bounds (df : list Student) : result (Z * Z) :=
  match Zmin_list (map age df) with
  | None => Raise ValueError
  | Some lo =>
      match Zmax_list (map age df) with
      | None => Raise ValueError
      | Some hi => Ok (lo, hi)
      end
  end.

(** The filter of a page that is opened and left as it is: the first
    option of the selector, the whole age range, every subject, a minimum
    average of 0. *)
Definition default_filters (df : list Student) : result FilterSpec :=
  b <- age_bounds df ;;
  Ok {| selected_location := hd EmptyString (all_locations df);
        age_range := b;
        selected_subjects := subject_names;
        min_avg := 0 |}.

(** The header after [df[c] = ...]: [c] is appended unless it is there. *)
Definition with_column (c : string) (cols : list string) : list string :=
  match index_of c cols with
  | Some _ => cols
  | None => cols ++ [c]
  end.

(** A table of one student. *)
Definition one_student : list Student := [student_1].

(** A source whose SQL mark is text in one row. *)
Definition text_mark_csv : DataFrame :=
  {| columns := ["sql_marks"; "excel_marks"; "python_marks";
                 "power_bi_marks"; "english_marks"];
     rows := [[VInt 80; VInt 90; VInt 70; VInt 60; VInt 100];
              [VStr "absent"; VInt 90; VInt 70; VInt 60; VInt 100]] |}.

(** * Properties *)

(** ** Filtering *)

Lemma filter_filter {A : Type} (p q : A -> bool) (l : list A) :
  filter q (filter p l) = filter (fun x => p x && q x) l.
Proof.
  induction l as [|x l IH]; simpl; [reflexivity|].
  destruct (p x); simpl; [destruct (q x)|]; now rewrite IH.
Qed.

Lemma filtered_df_filter df f : filtered_df df f = filter (keeps f) df.
Proof.
  unfold filtered_df, keeps.
  destruct (String.eqb (selected_location f) "All"); simpl;
    rewrite !filter_filter; apply filter_ext; intros r;
    now rewrite ?andb_assoc.
Qed.

Lemma filter_subseq {A : Type} (p : A -> bool) (l : list A) :
  subseq (filter p l) l.
Proof.
  induction l as [|x l IH]; simpl; [constructor|].
  destruct (p x); now constructor.
Qed.

Lemma subseq_In {A : Type} (l m : list A) x : subseq l m -> In x l -> In x m.
Proof.
  induction 1; simpl; intuition.
Qed.

Lemma filter_length_mono {A : Type} (p q : A -> bool) (l : list A) :
  (forall x, In x l -> p x = true -> q x = true) ->
  (length (filter p l) <= length (filter q l))%nat.
Proof.
  induction l as [|x l IH]; simpl; intros H; [lia|].
  assert (IH' : (length (filter p l) <= length (filter q l))%nat)
    by (apply IH; intros; apply H; auto).
  destruct (p x) eqn:Hp.
  - rewrite (H x (or_introl eq_refl) Hp). simpl. lia.
  - destruct (q x); simpl; lia.
Qed.

Lemma keeps_iff f r :
  keeps f r = true <->
  (selected_location f <> "All" -> location r = selected_location f) /\
  (fst (age_range f) <= age r <= snd (age_range f)) /\
  (inject_Z (min_avg f) <= average_marks r)%Q.
Proof.
  unfold keeps, location_mask, age_mask, average_mask.
  rewrite !andb_true_iff, orb_true_iff, !String.eqb_eq, !Z.leb_le,
    Qle_bool_iff.
  split.
  - intros [[Hl Ha] Hm]. split; [|tauto]. intros Hn.
    destruct Hl; [contradiction|assumption].
  - intros [Hl [Ha Hm]]. split; [split|]; try tauto.
    destruct (string_dec (selected_location f) "All"); [now left|].
    right. now apply Hl.
Qed.

(** C1. A record is in the filtered table exactly when it is a record of
    the table and passes the three filters together: its location is the
    selected one unless the selection is "All" (compared as exact strings),
    its age lies between the two ends of the age range, ends included, and
    its average is at least the minimum average. *)
Theorem filtered_df_conjunctive (df : list Student) (f : FilterSpec)
  (r : Student) :
  In r (filtered_df df f) <->
  In r df /\
  (selected_location f <> "All" -> location r = selected_location f) /\
  (fst (age_range f) <= age r <= snd (age_range f)) /\
  (inject_Z (min_avg f) <= average_marks r)%Q.
Proof.
  rewrite filtered_df_filter, filter_In, keeps_iff. reflexivity.
Qed.

(** C5. Widening one bound of the filter (the location to "All", a wider
    age range, or a lower minimum average) with the other bounds unchanged
    never makes the filtered table shorter. *)
Theorem filtered_df_monotonic (df : list Student) (f f' : FilterSpec) :
  widens f f' ->
  (length (filtered_df df f) <= length (filtered_df df f'))%nat.
Proof.
  intros W. rewrite !filtered_df_filter.
  apply filter_length_mono. intros r _.
  rewrite !keeps_iff. intros [Hl [Ha Hm]].
  destruct W as [f | f lo hi Hlo Hhi | f m Hm']; simpl.
  - split; [intros Hn; now elim Hn | tauto].
  - split; [assumption | split; [lia | assumption]].
  - split; [assumption | split; [assumption |]].
    apply Qle_trans with (inject_Z (min_avg f)); [|assumption].
    rewrite <- Zle_Qle. assumption.
Qed.

(** C10. The filtered table is a part of the table in the order of the
    table: its records are records of the table, they follow one another
    as they do in the table, and the table itself is the same after the
    filters have run. *)
Theorem filtered_df_subsequence (df : list Student) (f : FilterSpec) :
  subseq (filtered_df df f) df /\
  (forall r, In r (filtered_df df f) -> In r df) /\
  tbl_df (apply_filters df f) = df /\
  tbl_filtered_df (apply_filters df f) = filtered_df df f.
Proof.
  assert (S : subseq (filtered_df df f) df)
    by (rewrite filtered_df_filter; apply filter_subseq).
  repeat split; auto.
  intros r. now apply subseq_In.
Qed.

(** ** Sorting *)

Section SortingFacts.
Context {A : Type}.
Variable ahead : A -> A -> bool.

Lemma insert_perm x l : Permutation (insert ahead x l) (x :: l).
Proof.
  induction l as [|y l IH]; simpl; [reflexivity|].
  destruct (ahead x y); [reflexivity|].
  rewrite IH. apply perm_swap.
Qed.

Lemma sort_perm l : Permutation (sort ahead l) l.
Proof.
  induction l as [|x l IH]; simpl; [reflexivity|].
  rewrite insert_perm. now constructor.
Qed.

Lemma sort_length l : length (sort ahead l) = length l.
Proof. apply Permutation_length, sort_perm. Qed.

Lemma sort_In l x : In x (sort ahead l) <-> In x l.
Proof.
  split; apply Permutation_in; [|symmetry]; apply sort_perm.
Qed.

(** Rows that are tied under [ahead] keep the order they had. *)
Lemma insert_filter_tied (p : A -> bool) x l :
  (forall a b, p a = true -> p b = true -> ahead a b = true) ->
  filter p (insert ahead x l) = filter p (x :: l).
Proof.
  intros T. induction l as [|y l IH]; simpl in *; [reflexivity|].
  destruct (ahead x y) eqn:E; simpl; [reflexivity|].
  rewrite IH. destruct (p x) eqn:Px, (p y) eqn:Py; try reflexivity.
  rewrite (T x y Px Py) in E. discriminate.
Qed.

Lemma sort_stable (p : A -> bool) l :
  (forall a b, p a = true -> p b = true -> ahead a b = true) ->
  filter p (sort ahead l) = filter p l.
Proof.
  intros T. induction l as [|x l IH]; simpl; [reflexivity|].
  rewrite insert_filter_tied by assumption. simpl. now rewrite IH.
Qed.

Hypothesis ahead_total : forall x y, ahead x y = false -> ahead y x = true.
Hypothesis ahead_trans :
  forall x y z, ahead x y = true -> ahead y z = true -> ahead x z = true.

Lemma insert_sorted x l :
  StronglySorted (fun a b => ahead a b = true) l ->
  StronglySorted (fun a b => ahead a b = true) (insert ahead x l).
Proof.
  induction 1 as [|y l S IH F]; simpl.
  - repeat constructor.
  - destruct (ahead x y) eqn:E.
    + constructor; [now constructor|].
      constructor; [exact E|].
      eapply Forall_impl; [|exact F]. intros z Hz.
      now apply ahead_trans with y.
    + constructor; [exact IH|].
      rewrite Forall_forall. intros z Hz.
      apply (Permutation_in _ (insert_perm x l)) in Hz.
      destruct Hz as [<-|Hz]; [now apply ahead_total|].
      rewrite Forall_forall in F. now apply F.
Qed.

Lemma sort_sorted l :
  StronglySorted (fun a b => ahead a b = true) (sort ahead l).
Proof.
  induction l as [|x l IH]; simpl; [constructor|].
  now apply insert_sorted.
Qed.
End SortingFacts.

Lemma StronglySorted_app_inv {A : Type} (R : A -> A -> Prop) (l m : list A) :
  StronglySorted R (l ++ m) ->
  StronglySorted R l /\ StronglySorted R m /\
  (forall a b, In a l -> In b m -> R a b).
Proof.
  induction l as [|x l IH]; simpl; intros S.
  - repeat split; [constructor|assumption|contradiction].
  - inversion S as [|? ? S' F]; subst.
    destruct (IH S') as [Sl [Sm C]].
    rewrite Forall_app in F. destruct F as [Fl Fm].
    repeat split; [now constructor|assumption|].
    intros a b [<-|Ha] Hb; [|now apply C].
    rewrite Forall_forall in Fm. now apply Fm.
Qed.

Lemma StronglySorted_map {A B : Type} (f : A -> B) (R : B -> B -> Prop)
  (l : list A) :
  StronglySorted (fun x y => R (f x) (f y)) l -> StronglySorted R (map f l).
Proof.
  induction 1 as [|x l S IH F]; simpl; constructor; [assumption|].
  rewrite Forall_map. exact F.
Qed.

Lemma Qge_bool_total (x y : Q) : Qle_bool y x = false -> Qle_bool x y = true.
Proof.
  intros H. apply Qle_bool_iff. apply Qlt_le_weak, Qnot_le_lt.
  intros C. apply Qle_bool_iff in C. congruence.
Qed.

Lemma Qge_bool_trans (x y z : Q) :
  Qle_bool y x = true -> Qle_bool z y = true -> Qle_bool z x = true.
Proof.
  rewrite !Qle_bool_iff. intros; now apply Qle_trans with y.
Qed.

Lemma nlargest_sorted {A : Type} (n : nat) (key : A -> Q) (l : list A) :
  StronglySorted (fun a b => (key b <= key a)%Q) (nlargest n key l) /\
  (forall a b, In a (nlargest n key l) ->
               In b (skipn n (sort (fun x y => Qle_bool (key y) (key x)) l)) ->
               (key b <= key a)%Q).
Proof.
  unfold nlargest.
  set (ahead := fun x y => Qle_bool (key y) (key x)).
  assert (S : StronglySorted (fun x y => ahead x y = true) (sort ahead l)).
  { apply sort_sorted; unfold ahead; intros.
    - now apply Qge_bool_total.
    - eapply Qge_bool_trans; eassumption. }
  rewrite <- (firstn_skipn n (sort ahead l)) in S.
  apply StronglySorted_app_inv in S. destruct S as [S1 [_ C]].
  split.
  - eapply StronglySorted_ind with (P := StronglySorted _);
      [constructor| |exact S1].
    intros a m _ IH F. constructor; [exact IH|].
    eapply Forall_impl; [|exact F]. intros b Hb. now apply Qle_bool_iff.
  - intros a b Ha Hb. apply Qle_bool_iff. now apply C.
Qed.

(** C3. The top-10 table holds the records of largest average of the
    filtered table: the filtered table splits into the rows shown and the
    rest, no row of the rest has a larger average than a row shown, the
    table has min(10, size of the filtered table) rows, its averages go
    down from row to row, and among records of equal average the ones
    shown are the earliest of the filtered table, in its order (which is
    the order of the dataset). *)
Theorem top_students_largest (df : list Student) (f : FilterSpec) :
  exists top rest : list Student,
    top_students (filtered_df df f) = map performer top /\
    Permutation (filtered_df df f) (top ++ rest) /\
    (forall a b, In a top -> In b rest ->
                 (average_marks b <= average_marks a)%Q) /\
    length (top_students (filtered_df df f))
    = Nat.min 10 (length (filtered_df df f)) /\
    StronglySorted (fun a b => (p_average_marks b <= p_average_marks a)%Q)
                   (top_students (filtered_df df f)) /\
    (forall q : Q,
        filter (fun r => Qeq_bool (average_marks r) q) (filtered_df df f)
        = filter (fun r => Qeq_bool (average_marks r) q) top
          ++ filter (fun r => Qeq_bool (average_marks r) q) rest) /\
    subseq (filtered_df df f) df.
Proof.
  set (l := filtered_df df f).
  set (ahead := fun x y : Student =>
                  Qle_bool (average_marks y) (average_marks x)).
  exists (nlargest 10 average_marks l), (skipn 10 (sort ahead l)).
  destruct (nlargest_sorted 10 average_marks l) as [S C].
  assert (E : nlargest 10 average_marks l ++ skipn 10 (sort ahead l)
              = sort ahead l) by apply firstn_skipn.
  split; [reflexivity|].
  split; [rewrite E; symmetry; apply sort_perm|].
  split; [exact C|].
  split.
  { unfold top_students, nlargest. fold ahead.
    now rewrite length_map, length_firstn, sort_length. }
  split.
  { unfold top_students. apply StronglySorted_map. exact S. }
  split.
  { intros q. rewrite <- filter_app, E. symmetry. apply sort_stable.
    intros a b Ha Hb. unfold ahead. apply Qle_bool_iff.
    apply Qeq_bool_iff in Ha, Hb. rewrite Ha, Hb. apply Qle_refl. }
  unfold l. rewrite filtered_df_filter. apply filter_subseq.
Qed.

(** ** Grouping *)

Lemma ascii_compare_refl (a : ascii) : Ascii.compare a a = Eq.
Proof. unfold Ascii.compare. apply N.compare_refl. Qed.

Lemma ascii_compare_lt_trans (a b c : ascii) :
  Ascii.compare a b = Lt -> Ascii.compare b c = Lt -> Ascii.compare a c = Lt.
Proof.
  unfold Ascii.compare. rewrite !N.compare_lt_iff. lia.
Qed.

Lemma string_leb_trans (a b c : string) :
  String.leb a b = true -> String.leb b c = true -> String.leb a c = true.
Proof.
  unfold String.leb. revert b c.
  induction a as [|x a IH]; intros [|y b] [|z c]; simpl; try easy.
  destruct (Ascii.compare x y) eqn:E1; try easy;
    destruct (Ascii.compare y z) eqn:E2; try easy.
  - apply Ascii.compare_eq_iff in E1, E2. subst.
    rewrite ascii_compare_refl. apply IH.
  - apply Ascii.compare_eq_iff in E1. subst. now rewrite E2.
  - apply Ascii.compare_eq_iff in E2. subst. now rewrite E1.
  - now rewrite (ascii_compare_lt_trans x y z).
Qed.

Lemma string_leb_total (a b : string) :
  String.leb a b = false -> String.leb b a = true.
Proof.
  intros H. destruct (String.leb_total a b) as [T|T]; congruence.
Qed.

Lemma groupby_keys {A : Type} (key : A -> string) (l : list A) :
  map fst (groupby key l) = sort String.leb (nodup string_dec (map key l)).
Proof.
  unfold groupby. rewrite map_map. simpl. apply map_id.
Qed.

Lemma groupby_keys_sorted {A : Type} (key : A -> string) (l : list A) :
  StronglySorted (fun a b => String.leb a b = true) (map fst (groupby key l)).
Proof.
  rewrite groupby_keys. apply sort_sorted.
  - apply string_leb_total.
  - apply string_leb_trans.
Qed.

Lemma groupby_keys_NoDup {A : Type} (key : A -> string) (l : list A) :
  NoDup (map fst (groupby key l)).
Proof.
  rewrite groupby_keys.
  apply (Permutation_NoDup (l := nodup string_dec (map key l))).
  - symmetry. apply sort_perm.
  - apply NoDup_nodup.
Qed.

Lemma groupby_keys_In {A : Type} (key : A -> string) (l : list A) k :
  In k (map fst (groupby key l)) <-> exists r, In r l /\ key r = k.
Proof.
  rewrite groupby_keys, sort_In, nodup_In, in_map_iff.
  split; intros [r [H1 H2]]; exists r; auto.
Qed.

Lemma groupby_In {A : Type} (key : A -> string) (l : list A) k g :
  In (k, g) (groupby key l) ->
  g = filter (fun r => String.eqb (key r) k) l /\ g <> [].
Proof.
  intros H.
  assert (Hk : In k (map fst (groupby key l)))
    by (apply in_map_iff; exists (k, g); auto).
  unfold groupby in H. apply in_map_iff in H.
  destruct H as [k' [E _]]. inversion E; subst k' g. clear E.
  split; [reflexivity|].
  apply groupby_keys_In in Hk. destruct Hk as [r [Hr Hkey]].
  intros C.
  assert (In r (filter (fun r => String.eqb (key r) k) l))
    by (apply filter_In; split; [assumption|now apply String.eqb_eq]).
  rewrite C in H. contradiction.
Qed.

(** Each row falls in the group of exactly one key. *)
Lemma count_one (ks : list string) (k : string) :
  NoDup ks -> In k ks ->
  list_sum (map (fun k' => if String.eqb k k' then 1%nat else 0%nat) ks)
  = 1%nat.
Proof.
  induction 1 as [|k0 ks N _ IH]; simpl; [contradiction|].
  intros [->|H].
  - rewrite String.eqb_refl.
    assert (Z0 : forall m, ~ In k m ->
      list_sum (map (fun k' => if String.eqb k k' then 1%nat else 0%nat) m)
      = 0%nat).
    { induction m as [|a m IHm]; simpl; [reflexivity|]. intros Hn.
      destruct (String.eqb k a) eqn:E.
      - apply String.eqb_eq in E. subst. elim Hn. now left.
      - apply IHm. intros C. apply Hn. now right. }
    now rewrite Z0.
  - destruct (String.eqb k k0) eqn:E.
    + apply String.eqb_eq in E. subst. contradiction.
    + now apply IH.
Qed.

Lemma partition_sizes {A : Type} (key : A -> string) (ks : list string)
  (l : list A) :
  NoDup ks -> (forall r, In r l -> In (key r) ks) ->
  list_sum (map (fun k => length (filter (fun r => String.eqb (key r) k) l)) ks)
  = length l.
Proof.
  intros N. induction l as [|x l IH]; simpl; intros H.
  - clear. induction ks as [|k ks IHk]; simpl; [reflexivity|assumption].
  - rewrite <- IH by (intros; apply H; auto).
    change (S ?n) with (1 + n)%nat.
    rewrite <- (count_one ks (key x) N (H x (or_introl eq_refl))).
    clear. induction ks as [|k ks IHk]; simpl; [reflexivity|].
    rewrite IHk. destruct (String.eqb (key x) k); simpl; lia.
Qed.

Lemma groupby_sizes {A : Type} (key : A -> string) (l : list A) :
  list_sum (map (fun g => length (snd g)) (groupby key l)) = length l.
Proof.
  unfold groupby. rewrite map_map. simpl.
  apply partition_sizes.
  - rewrite <- groupby_keys. apply groupby_keys_NoDup.
  - intros r Hr. rewrite <- groupby_keys. apply groupby_keys_In. eauto.
Qed.

(** ** The page and its views *)

Lemma dashboard_rendered df f v :
  dashboard df f = Rendered v ->
  filtered_df df f <> [] /\ v = views df (filtered_df df f) f.
Proof.
  unfold dashboard. destruct (filtered_df df f) as [|r l]; simpl.
  - discriminate.
  - intros H. split; [discriminate|congruence].
Qed.

Lemma ge_float_total x y : ge_float x y = false -> ge_float y x = true.
Proof.
  destruct x, y; simpl; try easy. apply Qge_bool_total.
Qed.

Lemma ge_float_trans x y z :
  ge_float x y = true -> ge_float y z = true -> ge_float x z = true.
Proof.
  destruct x, y, z; simpl; try easy. apply Qge_bool_trans.
Qed.

Lemma mean_defined (xs : list Q) : xs <> [] -> mean xs <> None.
Proof. destruct xs; [contradiction|discriminate]. Qed.

Lemma location_means_defined (l : list Student) :
  Forall (fun p : string * option Q => snd p <> None)
         (map (fun g => (fst g, mean (map average_marks (snd g))))
              (groupby location l)).
Proof.
  rewrite Forall_map, Forall_forall. intros [k g] H. simpl.
  apply groupby_In in H. destruct H as [_ Hne].
  apply mean_defined. destruct g; [contradiction|discriminate].
Qed.



(** ** The choice of subjects *)

Lemma filter_const_name {A : Type} (n m : string) (g : A -> Z) (l : list A) :
  filter (fun p : string * Z => String.eqb (fst p) n)
         (map (fun r => (m, g r)) l)
  = if String.eqb m n then map (fun r => (m, g r)) l else [].
Proof.
  induction l as [|x l IH]; simpl.
  - now destruct (String.eqb m n).
  - rewrite IH. now destruct (String.eqb m n).
Qed.

Lemma subject_data_of_subject (l : list Student) (sel : list string) c name :
  In (c, name) subject_mapping ->
  filter (fun p => String.eqb (fst p) name) (subject_data l sel)
  = if selected name sel then map (fun r => (name, c r)) l else [].
Proof.
  unfold subject_mapping, subject_data. simpl.
  intros [E|[E|[E|[E|[E|[]]]]]]; inversion E; subst c name; clear E;
    destruct (selected "SQL" sel), (selected "Excel" sel),
      (selected "Python" sel), (selected "Power BI" sel),
      (selected "English" sel);
    rewrite ?filter_app, ?filter_const_name; simpl;
    rewrite ?app_nil_r; reflexivity.
Qed.

Lemma subject_data_selected (l : list Student) (sel : list string) p :
  In p (subject_data l sel) ->
  selected (fst p) sel = true /\ In (fst p) subject_names.
Proof.
  unfold subject_data. rewrite in_flat_map. intros [m [Hm Hp]].
  destruct (selected (snd m) sel) eqn:S; [|contradiction].
  apply in_map_iff in Hp. destruct Hp as [r [<- _]]. simpl.
  split; [exact S|].
  unfold subject_mapping in Hm. simpl in Hm.
  destruct Hm as [<-|[<-|[<-|[<-|[<-|[]]]]]]; simpl; tauto.
Qed.

(** C7. Another choice of subjects leaves the filtered table as it is and
    the page in the same state with the same key metrics, location means,
    heat map, statistics, counts, top-10 table, best-subject summary and
    export; only the distribution follows the choice.  The distribution holds, for each of the five subjects that is
    selected, one (subject, mark) pair per record of the filtered table, in
    its order, and no pair for a subject that is not selected.  The heat
    map has the means of all five subjects on each row, and the statistics
    describe all five subjects. *)
Theorem subject_selection_scope (df : list Student) (f : FilterSpec)
  (sel : list string) :
  filtered_df df (with_subjects f sel) = filtered_df df f /\
  match dashboard df f, dashboard df (with_subjects f sel) with
  | NoMatch, NoMatch => True
  | Rendered v, Rendered v' =>
      v_metrics v' = v_metrics v /\
      v_location_avg v' = v_location_avg v /\
      v_heatmap_data v' = v_heatmap_data v /\
      v_stats_df v' = v_stats_df v /\
      v_location_counts v' = v_location_counts v /\
      v_age_counts v' = v_age_counts v /\
      v_top_students v' = v_top_students v /\
      v_best_subjects v' = v_best_subjects v /\
      v_csv v' = v_csv v /\
      v_subject_data v' = subject_data (filtered_df df f) sel /\
      v_heatmap_data v
      = map (fun g => (fst g,
                       map (fun c => option_map round2 (mean (column c (snd g))))
                           [sql_marks; excel_marks; python_marks;
                            power_bi_marks; english_marks]))
            (groupby location (filtered_df df f)) /\
      v_stats_df v
      = [("SQL", describe (column sql_marks (filtered_df df f)));
         ("Excel", describe (column excel_marks (filtered_df df f)));
         ("Python", describe (column python_marks (filtered_df df f)));
         ("Power BI", describe (column power_bi_marks (filtered_df df f)));
         ("English", describe (column english_marks (filtered_df df f)))]
  | _, _ => False
  end /\
  (forall c name, In (c, name) subject_mapping ->
     filter (fun p => String.eqb (fst p) name)
            (subject_data (filtered_df df f) sel)
     = if selected name sel
       then map (fun r => (name, c r)) (filtered_df df f)
       else []) /\
  (forall p, In p (subject_data (filtered_df df f) sel) ->
     selected (fst p) sel = true /\ In (fst p) subject_names).
Proof.
  assert (E : filtered_df df (with_subjects f sel) = filtered_df df f)
    by reflexivity.
  split; [exact E|].
  split.
  { unfold dashboard. rewrite E.
    destruct (filtered_df df f) as [|r l]; simpl; [exact I|].
    repeat split; reflexivity. }
  split.
  - intros c name. apply subject_data_of_subject.
  - intros p. apply subject_data_selected.
Qed.

(** ** Loading *)

Lemma mapM_Forall2 {A B : Type} (f : A -> result B) (l : list A) (m : list B) :
  mapM f l = Ok m -> Forall2 (fun a b => f a = Ok b) l m.
Proof.
  revert m. induction l as [|a l IH]; simpl; intros m H.
  - inversion H. constructor.
  - destruct (f a) as [b|] eqn:E; simpl in H; [|discriminate].
    destruct (mapM f l) as [bs|] eqn:E'; simpl in H; [|discriminate].
    inversion H. subst. constructor; auto.
Qed.

Lemma Forall2_mapM {A B : Type} (f : A -> result B) (l : list A) (m : list B) :
  Forall2 (fun a b => f a = Ok b) l m -> mapM f l = Ok m.
Proof.
  induction 1 as [|a b l m E _ IH]; simpl; [reflexivity|].
  now rewrite E, IH.
Qed.

Lemma mapM_total {A B : Type} (f : A -> result B) (l : list A) :
  (forall a, In a l -> exists b, f a = Ok b) -> exists m, mapM f l = Ok m.
Proof.
  induction l as [|a l IH]; simpl; intros H; [now exists []|].
  destruct (H a (or_introl eq_refl)) as [b E].
  destruct IH as [m E']; [intros; apply H; auto|].
  exists (b :: m). now rewrite E, E'.
Qed.

Lemma Forall2_nth_l {A B : Type} (R : A -> B -> Prop) l m i a :
  Forall2 R l m -> nth_error l i = Some a ->
  exists b, nth_error m i = Some b /\ R a b.
Proof.
  intros F. revert i. induction F as [|x y l m Rxy _ IH]; intros [|i]; simpl;
    try discriminate.
  - intros H. inversion H. subst. eauto.
  - apply IH.
Qed.

Lemma Forall2_nth_r {A B : Type} (R : A -> B -> Prop) l m i b :
  Forall2 R l m -> nth_error m i = Some b ->
  exists a, nth_error l i = Some a /\ R a b.
Proof.
  intros F. revert i. induction F as [|x y l m Rxy _ IH]; intros [|i]; simpl;
    try discriminate.
  - intros H. inversion H. subst. eauto.
  - apply IH.
Qed.

Lemma Forall2_functional {A B : Type} (g : A -> option B) (cs : list A)
  (u v : list B) :
  Forall2 (fun c x => g c = Some x) cs u ->
  Forall2 (fun c x => g c = Some x) cs v -> u = v.
Proof.
  intros F. revert v. induction F as [|c x cs u E _ IH]; intros v G;
    inversion G; subst; [reflexivity|].
  f_equal; [congruence|auto].
Qed.

Lemma index_of_Some c cols i :
  index_of c cols = Some i -> nth_error cols i = Some c.
Proof.
  revert i. induction cols as [|c' cols IH]; simpl; intros i; [discriminate|].
  destruct (String.eqb c c') eqn:E.
  - intros H. inversion H. apply String.eqb_eq in E. now subst.
  - destruct (index_of c cols) as [j|]; simpl; [|discriminate].
    intros H. inversion H. subst. simpl. now apply IH.
Qed.

Lemma index_of_None c cols : index_of c cols = None <-> ~ In c cols.
Proof.
  induction cols as [|c' cols IH]; simpl; [tauto|].
  destruct (String.eqb c c') eqn:E.
  - apply String.eqb_eq in E. subst. split; [discriminate|]. intros H.
    elim H. now left.
  - apply String.eqb_neq in E.
    destruct (index_of c cols) as [j|]; simpl.
    + split; [discriminate|]. intros H. exfalso.
      assert (N : ~ In c cols) by tauto. apply IH in N. discriminate.
    + split; [|reflexivity]. intros _ [H|H]; [congruence|].
      now apply IH in H.
Qed.

Lemma index_of_snoc c c' cols :
  index_of c (cols ++ [c'])
  = match index_of c cols with
    | Some i => Some i
    | None => if String.eqb c c' then Some (length cols) else None
    end.
Proof.
  induction cols as [|x cols IH]; simpl.
  - now destruct (String.eqb c c').
  - destruct (String.eqb c x); [reflexivity|]. rewrite IH.
    destruct (index_of c cols); simpl; [reflexivity|].
    now destruct (String.eqb c c').
Qed.

Lemma replace_nth_length i v r : length (replace_nth i v r) = length r.
Proof.
  revert i. induction r as [|x r IH]; intros [|i]; simpl; auto.
Qed.

Lemma replace_nth_same i v r :
  (i < length r)%nat -> nth_error (replace_nth i v r) i = Some v.
Proof.
  revert i. induction r as [|x r IH]; intros [|i]; simpl; try lia; auto.
  intros H. apply IH. lia.
Qed.

Lemma replace_nth_other i j v r :
  i <> j -> nth_error (replace_nth i v r) j = nth_error r j.
Proof.
  revert i j. induction r as [|x r IH]; intros [|i] [|j]; simpl; auto;
    try congruence.
Qed.

Lemma zip_with_Forall2_r {A B C : Type} (f : A -> B -> C)
  (P : A -> Prop) (Q : C -> B -> Prop) (l : list A) (s : list B) :
  length s = length l -> Forall P l ->
  (forall r v, P r -> Q (f r v) v) -> Forall2 Q (zip_with f l s) s.
Proof.
  intros L F HQ. revert s L.
  induction F as [|r l Pr _ IH]; intros [|v s]; simpl; try discriminate;
    constructor; auto.
Qed.

Lemma zip_with_Forall2_l {A B C : Type} (f : A -> B -> C)
  (P : A -> Prop) (Q : A -> C -> Prop) (l : list A) (s : list B) :
  length s = length l -> Forall P l ->
  (forall r v, P r -> Q r (f r v)) -> Forall2 Q l (zip_with f l s).
Proof.
  intros L F HQ. revert s L.
  induction F as [|r l Pr _ IH]; intros [|v s]; simpl; try discriminate;
    constructor; auto.
Qed.

Lemma setitem_rows df c s df' :
  setitem df c s = Ok df' ->
  length s = length (rows df) /\
  match index_of c (columns df) with
  | Some i =>
      columns df' = columns df /\
      rows df' = zip_with (fun r v => replace_nth i v r) (rows df) s
  | None =>
      columns df' = columns df ++ [c] /\
      rows df' = zip_with (fun r v => r ++ [v]) (rows df) s
  end.
Proof.
  unfold setitem.
  destruct (Nat.eqb (length s) (length (rows df))) eqn:L; simpl;
    [|discriminate].
  apply Nat.eqb_eq in L. intros H. split; [exact L|].
  destruct (index_of c (columns df)); inversion H; auto.
Qed.

(** After [df[c] = s] the frame is still rectangular, column [c] holds [s]
    and the other columns hold what they held. *)
Lemma setitem_spec df c s df' :
  rectangular df -> setitem df c s = Ok df' ->
  rectangular df' /\
  Forall2 (fun r' v => lookup df' r' c = Some v) (rows df') s /\
  Forall2 (fun r r' => forall c', c' <> c -> lookup df' r' c' = lookup df r c')
          (rows df) (rows df').
Proof.
  intros Rect H. apply setitem_rows in H. destruct H as [L H].
  unfold rectangular, lookup in *.
  destruct (index_of c (columns df)) as [i|] eqn:I; destruct H as [-> ->].
  - pose proof (index_of_Some _ _ _ I) as I'.
    assert (Hi : (i < length (columns df))%nat)
      by (apply nth_error_Some; congruence).
    split; [|split].
    + assert (F : Forall2 (fun (r' : list value) (_ : value) =>
                             length r' = length (columns df))
                    (zip_with (fun r v => replace_nth i v r) (rows df) s) s).
      { eapply zip_with_Forall2_r; [exact L|exact Rect|].
        intros r v Hr. simpl in Hr |- *. now rewrite replace_nth_length. }
      clear -F. induction F; constructor; auto.
    + eapply zip_with_Forall2_r; [exact L|exact Rect|].
      intros r v Hr. simpl in Hr |- *. rewrite I. apply replace_nth_same. lia.
    + eapply zip_with_Forall2_l; [exact L|exact Rect|].
      intros r v Hr c' Hc. simpl in Hr |- *.
      destruct (index_of c' (columns df)) as [j|] eqn:J; [|reflexivity].
      apply replace_nth_other. intros ->. apply index_of_Some in J.
      congruence.
  - split; [|split].
    + assert (F : Forall2 (fun (r' : list value) (_ : value) =>
                             length r' = length (columns df ++ [c]))
                    (zip_with (fun r v => r ++ [v]) (rows df) s) s).
      { eapply zip_with_Forall2_r; [exact L|exact Rect|].
        intros r v Hr. simpl in Hr |- *. rewrite !length_app, Hr. reflexivity. }
      clear -F. induction F; constructor; auto.
    + eapply zip_with_Forall2_r; [exact L|exact Rect|].
      intros r v Hr. simpl in Hr |- *. rewrite index_of_snoc, I, String.eqb_refl.
      rewrite <- Hr, nth_error_app2 by lia. now rewrite Nat.sub_diag.
    + eapply zip_with_Forall2_l; [exact L|exact Rect|].
      intros r v Hr c' Hc. simpl in Hr |- *. rewrite index_of_snoc.
      destruct (index_of c' (columns df)) as [j|] eqn:J.
      * apply index_of_Some in J.
        assert (j < length r)%nat
          by (rewrite Hr; apply nth_error_Some; congruence).
        now rewrite nth_error_app1.
      * apply String.eqb_neq in Hc. now rewrite Hc.
Qed.

Lemma Forall2_compose {A B C : Type} (R : A -> B -> Prop) (S : B -> C -> Prop)
  l m n :
  Forall2 R l m -> Forall2 S m n ->
  Forall2 (fun a c => exists b, R a b /\ S b c) l n.
Proof.
  intros F. revert n. induction F as [|a b l m Rab _ IH]; intros n G;
    inversion G; subst; constructor; eauto.
Qed.

Lemma mapM_length {A B : Type} (f : A -> result B) l m :
  mapM f l = Ok m -> length m = length l.
Proof.
  intros H. apply mapM_Forall2 in H. symmetry. eapply Forall2_length, H.
Qed.

Lemma getitems_spec df cs sub :
  getitems df cs = Ok sub ->
  columns sub = cs /\
  Forall2 (fun r cells => Forall2 (fun c v => lookup df r c = Some v) cs cells)
          (rows df) (rows sub).
Proof.
  unfold getitems.
  destruct (mapM (get_loc df) cs) as [idx|] eqn:E1; simpl; [|discriminate].
  destruct (mapM (fun r => mapM (cell r) idx) (rows df)) as [rs|] eqn:E2;
    simpl; [|discriminate].
  intros H. inversion H. subst sub. clear H. simpl. split; [reflexivity|].
  apply mapM_Forall2 in E1, E2.
  eapply Forall2_impl; [|exact E2]. intros r cells Hc. simpl in Hc.
  apply mapM_Forall2 in Hc.
  eapply Forall2_impl; [|exact (Forall2_compose _ _ _ _ _ E1 Hc)].
  intros c v [i [Hi Hv]]. simpl in Hi, Hv. unfold lookup.
  unfold get_loc in Hi. destruct (index_of c (columns df)); [|discriminate].
  inversion Hi. subst. unfold cell in Hv.
  destruct (nth_error r i); [congruence|discriminate].
Qed.

Lemma getitems_total df cs :
  rectangular df -> incl cs (columns df) -> exists sub, getitems df cs = Ok sub.
Proof.
  intros Rect Hin. unfold getitems.
  destruct (mapM_total (get_loc df) cs) as [idx E1].
  { intros c Hc. unfold get_loc.
    destruct (index_of c (columns df)) as [i|] eqn:I; [eauto|].
    apply index_of_None in I. elim I. now apply Hin. }
  rewrite E1. simpl.
  destruct (mapM_total (fun r => mapM (cell r) idx) (rows df)) as [rs E2].
  { intros r Hr. apply mapM_total. intros i Hi. unfold cell.
    destruct (nth_error r i) as [v|] eqn:N; [eauto|]. exfalso.
    apply nth_error_None in N.
    apply mapM_Forall2 in E1.
    destruct (In_nth_error _ _ Hi) as [k Hk].
    destruct (Forall2_nth_r _ _ _ _ _ E1 Hk) as [c [_ Hc]].
    unfold get_loc in Hc.
    destruct (index_of c (columns df)) as [j|] eqn:J; [|discriminate].
    inversion Hc. subst j. apply index_of_Some in J.
    assert (i < length (columns df))%nat
      by (apply nth_error_Some; congruence).
    unfold rectangular in Rect. rewrite Forall_forall in Rect.
    rewrite (Rect r Hr) in N. lia. }
  rewrite E2. simpl. eauto.
Qed.

(** A name that the header lacks is the one the error names. *)
Lemma get_locs_missing df cs :
  (exists c, In c cs /\ ~ In c (columns df)) ->
  exists c, In c cs /\ ~ In c (columns df) /\
            mapM (get_loc df) cs = Raise (KeyError c).
Proof.
  induction cs as [|c cs IH]; intros [c0 [Hin Hn]].
  - contradiction.
  - simpl. unfold get_loc at 1.
    destruct (index_of c (columns df)) as [i|] eqn:I.
    + destruct Hin as [->|Hin].
      * apply index_of_None in Hn. congruence.
      * destruct IH as [c1 [H1 [H2 H3]]]; [eauto|].
        exists c1. split; [now right|]. split; [assumption|].
        simpl. now rewrite H3.
    + apply index_of_None in I. exists c. simpl. auto.
Qed.

Lemma getitems_missing df cs :
  (exists c, In c cs /\ ~ In c (columns df)) ->
  exists c, In c cs /\ ~ In c (columns df) /\
            getitems df cs = Raise (KeyError c).
Proof.
  intros H. destruct (get_locs_missing df cs H) as [c [H1 [H2 H3]]].
  exists c. split; [assumption|]. split; [assumption|].
  unfold getitems. now rewrite H3.
Qed.

Lemma row_mean_spec cells a :
  row_mean cells = Ok a ->
  exists qs, mapM to_number cells = Ok qs /\
             a = VFloat (Qsum qs / inject_Z (Z.of_nat (length cells))).
Proof.
  unfold row_mean. destruct (mapM to_number cells) as [qs|] eqn:E; simpl;
    [|discriminate].
  intros H. inversion H. exists qs. split; [reflexivity|].
  now rewrite (mapM_length _ _ _ E).
Qed.

Lemma all_ints_numbers cells zs :
  all_ints cells = Some zs -> mapM to_number cells = Ok (map inject_Z zs).
Proof.
  revert zs. induction cells as [|v cells IH]; simpl; intros zs H.
  - inversion H. reflexivity.
  - destruct v as [z| |]; simpl in H; try discriminate.
    destruct (all_ints cells) as [zs'|]; [|discriminate].
    inversion H. subst. simpl. now rewrite (IH zs' eq_refl).
Qed.

Lemma inject_Zsum zs : (inject_Z (Zsum zs) == Qsum (map inject_Z zs))%Q.
Proof.
  induction zs as [|z zs IH]; simpl; [reflexivity|].
  now rewrite inject_Z_plus, IH.
Qed.

Lemma row_sum_spec cells t qs :
  row_sum cells = Ok t -> mapM to_number cells = Ok qs ->
  exists tq, to_number t = Ok tq /\ (tq == Qsum qs)%Q /\
             (forall zs, all_ints cells = Some zs -> t = VInt (Zsum zs)).
Proof.
  unfold row_sum. intros H E.
  destruct (all_ints cells) as [zs|] eqn:A.
  - inversion H. subst t. exists (inject_Z (Zsum zs)).
    rewrite (all_ints_numbers _ _ A) in E. inversion E. subst qs.
    split; [reflexivity|]. split; [apply inject_Zsum|].
    intros zs' Hz. congruence.
  - rewrite E in H. simpl in H. inversion H. subst t. exists (Qsum qs).
    split; [reflexivity|]. split; [reflexivity|]. discriminate.
Qed.

Lemma subject_cols_not_derived c :
  In c subject_cols -> c <> "average_marks" /\ c <> "total_marks".
Proof.
  unfold subject_cols. simpl.
  intros [<-|[<-|[<-|[<-|[<-|[]]]]]]; split; discriminate.
Qed.

Lemma Forall2_pointwise {A B : Type} (R : A -> B -> Prop) (l : list A)
  (m : list B) :
  length l = length m ->
  (forall i a b, nth_error l i = Some a -> nth_error m i = Some b -> R a b) ->
  Forall2 R l m.
Proof.
  revert m. induction l as [|a l IH]; intros [|b m]; simpl; try discriminate.
  - constructor.
  - intros L H. constructor.
    + apply (H 0%nat); reflexivity.
    + apply IH; [congruence|]. intros i. apply (H (S i)).
Qed.

Lemma load_data_steps csv df :
  load_data csv = Ok df ->
  exists sub avg df1 sub' tot,
    getitems csv subject_cols = Ok sub /\
    mean_axis1 sub = Ok avg /\
    setitem csv "average_marks" (round_series avg) = Ok df1 /\
    getitems df1 subject_cols = Ok sub' /\
    sum_axis1 sub' = Ok tot /\
    setitem df1 "total_marks" tot = Ok df.
Proof.
  unfold load_data.
  destruct (getitems csv subject_cols) as [sub|] eqn:H1; simpl;
    [|discriminate].
  destruct (mean_axis1 sub) as [avg|] eqn:H2; simpl; [|discriminate].
  destruct (setitem csv "average_marks" (round_series avg)) as [df1|] eqn:H3;
    simpl; [|discriminate].
  destruct (getitems df1 subject_cols) as [sub'|] eqn:H4; simpl;
    [|discriminate].
  destruct (sum_axis1 sub') as [tot|] eqn:H5; simpl; [|discriminate].
  intros H6. exists sub, avg, df1, sub', tot. auto 10.
Qed.

(** What [load_data] does to each row. *)
Lemma load_data_rows (csv df : DataFrame) :
  rectangular csv -> load_data csv = Ok df ->
  Forall2
    (fun r0 r =>
       (forall c, c <> "average_marks" -> c <> "total_marks" ->
                  lookup df r c = lookup csv r0 c) /\
       exists cells qs t tq,
         Forall2 (fun c v => lookup csv r0 c = Some v) subject_cols cells /\
         mapM to_number cells = Ok qs /\
         lookup df r "average_marks" = Some (VFloat (round2 (Qsum qs / 5))) /\
         lookup df r "total_marks" = Some t /\
         to_number t = Ok tq /\ (tq == Qsum qs)%Q /\
         (forall zs, all_ints cells = Some zs -> t = VInt (Zsum zs)))
    (rows csv) (rows df).
Proof.
  intros Rect H.
  destruct (load_data_steps _ _ H) as
    [sub [avg [df1 [sub' [tot [H1 [H2 [H3 [H4 [H5 H6]]]]]]]]]].
  apply getitems_spec in H1, H4. destruct H1 as [_ F1], H4 as [_ F4].
  apply mapM_Forall2 in H2, H5.
  destruct (setitem_spec _ _ _ _ Rect H3) as [Rect1 [F3b F3c]].
  destruct (setitem_spec _ _ _ _ Rect1 H6) as [_ [F6b F6c]].
  apply Forall2_pointwise.
  { rewrite (Forall2_length F3c). apply (Forall2_length F6c). }
  intros i r0 r Hr0 Hr.
  destruct (Forall2_nth_r _ _ _ _ _ F6c Hr) as [r1 [Hr1 K6]].
  destruct (Forall2_nth_l _ _ _ _ _ F6b Hr) as [t [Ht Kt]].
  destruct (Forall2_nth_l _ _ _ _ _ F3c Hr0) as [r1' [Hr1' K3]].
  assert (r1' = r1) by congruence. subst r1'.
  destruct (Forall2_nth_l _ _ _ _ _ F3b Hr1) as [a' [Ha' Ka]].
  destruct (Forall2_nth_l _ _ _ _ _ F1 Hr0) as [cells [Hcells K1]].
  destruct (Forall2_nth_l _ _ _ _ _ H2 Hcells) as [a [Ha Kmean]].
  destruct (Forall2_nth_l _ _ _ _ _ F4 Hr1) as [cells' [Hcells' K4]].
  destruct (Forall2_nth_r _ _ _ _ _ H5 Ht) as [cells'' [Hc'' Ksum]].
  assert (cells'' = cells') by congruence. subst cells''.
  unfold round_series in Ha'. rewrite nth_error_map, Ha in Ha'.
  simpl in Ha'. inversion Ha'. subst a'. clear Ha'.
  assert (cells' = cells).
  { apply (Forall2_functional (lookup csv r0) subject_cols); [|exact K1].
    clear -K4 K3.
    assert (G : Forall (fun c => c <> "average_marks") subject_cols).
    { rewrite Forall_forall. intros c Hc.
      now apply subject_cols_not_derived. }
    induction K4 as [|c v cs vs E _ IH]; constructor.
    - inversion G; subst. rewrite <- K3; assumption.
    - apply IH. now inversion G. }
  subst cells'.
  destruct (row_mean_spec _ _ Kmean) as [qs [Hqs ->]].
  destruct (row_sum_spec _ _ _ Ksum Hqs) as [tq [Htq [Eq Hint]]].
  split.
  { intros c Hca Hct. rewrite K6 by assumption. now apply K3. }
  exists cells, qs, t, tq.
  split; [exact K1|]. split; [exact Hqs|].
  split.
  { rewrite K6 by discriminate. rewrite Ka. simpl.
    rewrite <- (Forall2_length K1). reflexivity. }
  auto.
Qed.



Lemma setitem_total df c s :
  length s = length (rows df) -> exists df', setitem df c s = Ok df'.
Proof.
  intros L. unfold setitem. rewrite L, Nat.eqb_refl. simpl.
  destruct (index_of c (columns df)); eauto.
Qed.

Lemma setitem_columns df c s df' :
  setitem df c s = Ok df' -> incl (columns df) (columns df').
Proof.
  intros H. apply setitem_rows in H. destruct H as [_ H].
  destruct (index_of c (columns df)); destruct H as [-> _].
  - apply incl_refl.
  - apply incl_appl, incl_refl.
Qed.

Lemma numbers_total cells :
  Forall (fun v => exists q, to_number v = Ok q) cells ->
  exists qs, mapM to_number cells = Ok qs.
Proof.
  intros F. apply mapM_total. rewrite Forall_forall in F. exact F.
Qed.

Lemma row_mean_total cells :
  Forall (fun v => exists q, to_number v = Ok q) cells ->
  exists a, row_mean cells = Ok a.
Proof.
  intros F. destruct (numbers_total _ F) as [qs E].
  unfold row_mean. rewrite E. simpl. eauto.
Qed.

Lemma row_sum_total cells :
  Forall (fun v => exists q, to_number v = Ok q) cells ->
  exists t, row_sum cells = Ok t.
Proof.
  intros F. destruct (numbers_total _ F) as [qs E].
  unfold row_sum. destruct (all_ints cells); [eauto|].
  rewrite E. simpl. eauto.
Qed.

Lemma selected_cells_numeric (g : string -> option value) cs cells :
  (forall c v, In c cs -> g c = Some v -> exists q, to_number v = Ok q) ->
  Forall2 (fun c v => g c = Some v) cs cells ->
  Forall (fun v => exists q, to_number v = Ok q) cells.
Proof.
  intros N F. induction F as [|c v cs vs E _ IH]; constructor.
  - apply (N c v); [now left|assumption].
  - apply IH. intros c' v' Hc. apply N. now right.
Qed.

(** C8. A source that lacks one of the five mark columns makes
    [load_data] fail, with a [KeyError] that names a mark column that is
    missing.  A source that has the five mark columns, with numbers in
    them and a cell for every column in every row, loads: the identifier,
    location and age columns are not looked at by [load_data]. *)
Theorem load_data_schema (csv : DataFrame) :
  ((exists c, In c subject_cols /\ ~ In c (columns csv)) ->
   exists c, In c subject_cols /\ ~ In c (columns csv) /\
             load_data csv = Raise (KeyError c)) /\
  (incl subject_cols (columns csv) -> rectangular csv -> numeric_marks csv ->
   exists df, load_data csv = Ok df).
Proof.
  split.
  - intros H. destruct (getitems_missing csv subject_cols H) as [c [H1 [H2 H3]]].
    exists c. split; [assumption|]. split; [assumption|].
    unfold load_data. now rewrite H3.
  - intros Hin Rect Num. unfold load_data.
    destruct (getitems_total csv subject_cols Rect Hin) as [sub H1].
    rewrite H1. simpl.
    destruct (getitems_spec _ _ _ H1) as [_ F1].
    destruct (mapM_total row_mean (rows sub)) as [avg H2].
    { intros cells Hc. apply row_mean_total.
      destruct (In_nth_error _ _ Hc) as [i Hi].
      destruct (Forall2_nth_r _ _ _ _ _ F1 Hi) as [r [Hr K]].
      apply (selected_cells_numeric (lookup csv r) subject_cols); [|exact K].
      intros c v Hcin Hv. apply (Num r c v); auto.
      eapply nth_error_In; eassumption. }
    unfold mean_axis1. rewrite H2. simpl.
    destruct (setitem_total csv "average_marks" (round_series avg))
      as [df1 H3].
    { unfold round_series. rewrite length_map, (mapM_length _ _ _ H2).
      symmetry. apply (Forall2_length F1). }
    rewrite H3. simpl.
    destruct (setitem_spec _ _ _ _ Rect H3) as [Rect1 [_ F3c]].
    destruct (getitems_total df1 subject_cols Rect1) as [sub' H4].
    { eapply incl_tran; [exact Hin|]. eapply setitem_columns, H3. }
    rewrite H4. simpl.
    destruct (getitems_spec _ _ _ H4) as [_ F4].
    destruct (mapM_total row_sum (rows sub')) as [tot H5].
    { intros cells Hc. apply row_sum_total.
      destruct (In_nth_error _ _ Hc) as [i Hi].
      destruct (Forall2_nth_r _ _ _ _ _ F4 Hi) as [r1 [Hr1 K]].
      destruct (Forall2_nth_r _ _ _ _ _ F3c Hr1) as [r [Hr K3]].
      apply (selected_cells_numeric (lookup df1 r1) subject_cols); [|exact K].
      intros c v Hcin Hv. apply (Num r c v); auto.
      - eapply nth_error_In; eassumption.
      - rewrite <- K3; [assumption|].
        now apply subject_cols_not_derived. }
    unfold sum_axis1. rewrite H5. simpl.
    apply setitem_total. rewrite (mapM_length _ _ _ H5).
    symmetry. apply (Forall2_length F4).
Qed.

(** ** The export and its reader *)

Lemma append_assoc (a b c : string) :
  ((a ++ b) ++ c)%string = (a ++ (b ++ c))%string.
Proof. induction a as [|x a IH]; simpl; [reflexivity|now rewrite IH]. Qed.

Lemma append_nil_r (a : string) : (a ++ EmptyString)%string = a.
Proof. induction a as [|x a IH]; simpl; [reflexivity|now rewrite IH]. Qed.

Lemma snoc_append fld c s :
  (snoc fld c ++ s)%string = (fld ++ String c s)%string.
Proof. unfold snoc. now rewrite append_assoc. Qed.

Lemma special_false c :
  special c = false ->
  Ascii.eqb c comma = false /\ Ascii.eqb c dquote = false /\
  is_eol c = false.
Proof.
  unfold special, is_eol. rewrite !orb_false_iff. tauto.
Qed.

Lemma tokenize_InField c s fld row :
  tokenize InField fld row (String c s)
  = if Ascii.eqb c comma
    then tokenize FieldStart EmptyString (row ++ [fld]) s
    else if is_eol c
         then option_map (cons (row ++ [fld]))
                (tokenize FieldStart EmptyString [] (after_eol c s))
         else tokenize InField (snoc fld c) row s.
Proof. reflexivity. Qed.

Lemma tokenize_InQuoted c s fld row :
  tokenize InQuoted fld row (String c s)
  = if Ascii.eqb c dquote then tokenize QuoteSeen fld row s
    else tokenize InQuoted (snoc fld c) row s.
Proof. reflexivity. Qed.

Lemma tokenize_FieldStart_plain c s row :
  special c = false ->
  tokenize FieldStart EmptyString row (String c s)
  = tokenize InField (String c EmptyString) row s.
Proof.
  intros H. apply special_false in H. destruct H as [H1 [H2 H3]].
  simpl. now rewrite H1, H2, H3.
Qed.

(** An unquoted field is read up to the comma or the line end after it. *)
Lemma tokenize_plain f :
  needs_quoting f = false ->
  forall fld row rest,
    tokenize InField fld row (f ++ String comma rest)%string
    = tokenize FieldStart EmptyString (row ++ [(fld ++ f)%string]) rest /\
    tokenize InField fld row (f ++ String LF rest)%string
    = option_map (cons (row ++ [(fld ++ f)%string]))
        (tokenize FieldStart EmptyString [] rest).
Proof.
  induction f as [|c f IH]; intros N fld row rest.
  - rewrite append_nil_r. split; reflexivity.
  - simpl in N. apply orb_false_iff in N. destruct N as [Nc Nf].
    apply special_false in Nc. destruct Nc as [H1 [_ H3]].
    destruct (IH Nf (snoc fld c) row rest) as [IH1 IH2].
    rewrite snoc_append in IH1, IH2.
    split; simpl append; rewrite tokenize_InField, H1, H3; assumption.
Qed.

(** A quoted field is read up to its closing quote, a doubled quote
    standing for one. *)
Lemma tokenize_quoted f :
  forall fld row rest,
    tokenize InQuoted fld row
      (escape f ++ String dquote (String comma rest))%string
    = tokenize FieldStart EmptyString (row ++ [(fld ++ f)%string]) rest /\
    tokenize InQuoted fld row
      (escape f ++ String dquote (String LF rest))%string
    = option_map (cons (row ++ [(fld ++ f)%string]))
        (tokenize FieldStart EmptyString [] rest).
Proof.
  induction f as [|c f IH]; intros fld row rest.
  - rewrite append_nil_r. split; reflexivity.
  - destruct (IH (snoc fld c) row rest) as [IH1 IH2].
    rewrite snoc_append in IH1, IH2.
    simpl escape. destruct (Ascii.eqb c dquote) eqn:E.
    + apply Ascii.eqb_eq in E. subst c.
      split; simpl append; rewrite tokenize_InQuoted;
        (replace (Ascii.eqb dquote dquote) with true by reflexivity);
        simpl; assumption.
    + split; simpl append; rewrite tokenize_InQuoted, E; assumption.
Qed.

Lemma tokenize_field f row rest :
  tokenize FieldStart EmptyString row
    (write_field f ++ String comma rest)%string
  = tokenize FieldStart EmptyString (row ++ [f]) rest /\
  (row <> [] \/ f <> EmptyString ->
   tokenize FieldStart EmptyString row
     (write_field f ++ String LF rest)%string
   = option_map (cons (row ++ [f]))
       (tokenize FieldStart EmptyString [] rest)).
Proof.
  unfold write_field. destruct (needs_quoting f) eqn:N.
  - destruct (tokenize_quoted f EmptyString row rest) as [Q1 Q2].
    split; [|intros _]; simpl append; rewrite append_assoc; simpl;
      assumption.
  - destruct f as [|c f].
    + split; [reflexivity|]. intros [H|H]; [|congruence].
      destruct row; [congruence|reflexivity].
    + simpl in N. apply orb_false_iff in N. destruct N as [Nc Nf].
      destruct (tokenize_plain f Nf (String c EmptyString) row rest)
        as [P1 P2].
      split; [|intros _]; simpl append;
        rewrite tokenize_FieldStart_plain by assumption; assumption.
Qed.

Lemma tokenize_fields fs :
  forall row rest,
    fs <> [] -> (row <> [] \/ fs <> [EmptyString]) ->
    tokenize FieldStart EmptyString row
      (join_fields fs ++ String LF rest)%string
    = option_map (cons (row ++ fs))
        (tokenize FieldStart EmptyString [] rest).
Proof.
  induction fs as [|f fs IH]; intros row rest Hne Hb; [congruence|].
  destruct fs as [|f' fs].
  - simpl join_fields. apply tokenize_field.
    destruct Hb as [Hb|Hb]; [now left|right; congruence].
  - change (join_fields (f :: f' :: fs))
      with (write_field f ++ String comma (join_fields (f' :: fs)))%string.
    rewrite append_assoc. simpl append.
    rewrite (proj1 (tokenize_field f row _)).
    rewrite IH; [|discriminate|left; now destruct row].
    now rewrite <- app_assoc.
Qed.

Lemma tokenize_rows rs :
  Forall row_shows rs ->
  tokenize FieldStart EmptyString [] (write_rows rs) = Some rs.
Proof.
  induction 1 as [|r rs [H1 H2] _ IH]; simpl; [reflexivity|].
  unfold write_row. rewrite append_assoc. simpl append.
  rewrite tokenize_fields by auto. now rewrite IH.
Qed.

Lemma parse_int_str (z : Z) : parse_int (str_int z) = Some z.
Proof.
  unfold parse_int, str_int. rewrite NilZero.isi.
  - simpl. now rewrite DecimalZ.of_to.
  - destruct z; simpl; try discriminate.
    intros H. inversion H. eapply DecimalPos.Unsigned.to_uint_nonnil; eauto.
  - destruct z; simpl; try discriminate.
    intros H. inversion H. eapply DecimalPos.Unsigned.to_uint_nonnil; eauto.
Qed.

Lemma rint_comp (x y : Q) : (x == y)%Q -> rint x = rint y.
Proof.
  intros H. unfold rint. rewrite (Qfloor_comp _ _ H).
  assert (E : Qcompare (x - inject_Z (Qfloor y)) (1 # 2)
              = Qcompare (y - inject_Z (Qfloor y)) (1 # 2))
    by (apply Qcompare_comp; [now rewrite H|reflexivity]).
  now rewrite E.
Qed.

Lemma rint_inject_Z (k : Z) : rint (inject_Z k) = k.
Proof.
  unfold rint. rewrite Qfloor_Z.
  assert (E : Qcompare (inject_Z k - inject_Z k) (1 # 2) = Lt).
  { apply Qlt_alt. assert (Z0 : (inject_Z k - inject_Z k == 0)%Q) by ring.
    rewrite Z0. reflexivity. }
  now rewrite E.
Qed.

(** Rounding to two decimals gives a whole number of hundredths. *)
Lemma round2_hundredths (x : Q) : rint (round2 x * 100) = rint (x * 100).
Proof.
  unfold round2. rewrite <- (rint_inject_Z (rint (x * 100))) at 2.
  apply rint_comp. rewrite Qred_correct.
  unfold Qeq, inject_Z. simpl. lia.
Qed.

Lemma round2_comp (x y : Q) : (x == y)%Q -> round2 x = round2 y.
Proof.
  intros H. unfold round2.
  now rewrite (rint_comp (x * 100) (y * 100)) by (now rewrite H).
Qed.

Lemma round2_canonical (x : Q) :
  round2 x = Qred (rint (round2 x * 100) # 100).
Proof. now rewrite round2_hundredths. Qed.

Lemma split_point_digits (d : Decimal.uint) (rest : string) :
  split_point (NilEmpty.string_of_uint d ++ String "." rest)%string
  = Some (NilEmpty.string_of_uint d, rest).
Proof.
  induction d; simpl; rewrite ?IHd; reflexivity.
Qed.

Lemma str_nat_shape (n : N) :
  exists c s, str_nat n = String c s /\ Ascii.eqb c "-" = false.
Proof.
  unfold str_nat. destruct n as [|p]; simpl.
  - eauto.
  - pose proof (DecimalPos.Unsigned.to_uint_nonnil p) as H.
    destruct (Pos.to_uint p); simpl; try contradiction; eauto.
Qed.

Lemma parse_str_nat (n : N) :
  NilEmpty.uint_of_string (str_nat n) = Some (N.to_uint n).
Proof. apply NilEmpty.usu. Qed.

Lemma digit_cases (d : N) :
  (d < 10)%N ->
  d = 0%N \/ d = 1%N \/ d = 2%N \/ d = 3%N \/ d = 4%N \/ d = 5%N \/
  d = 6%N \/ d = 7%N \/ d = 8%N \/ d = 9%N.
Proof. lia. Qed.

Ltac each_digit H :=
  destruct (digit_cases _ H) as [->|[->|[->|[->|[->|[->|[->|[->|[->| ->]]]]]]]]].

Lemma one_digit (d : N) :
  (d < 10)%N ->
  nonempty (str_nat d) = true /\ String.length (str_nat d) = 1%nat.
Proof. intros H. each_digit H; split; reflexivity. Qed.

Lemma two_digits (d1 d0 : N) :
  (d1 < 10)%N -> (d0 < 10)%N ->
  nonempty (str_nat d1 ++ str_nat d0)%string = true /\
  String.length (str_nat d1 ++ str_nat d0)%string = 2%nat /\
  option_map N.of_uint
    (NilEmpty.uint_of_string (str_nat d1 ++ str_nat d0)%string)
  = Some (10 * d1 + d0)%N.
Proof.
  intros H1 H0. each_digit H1; each_digit H0; repeat split; reflexivity.
Qed.

(** Reading [digits.decimals] gives the number written. *)
Lemma parse_decimal_str (i f : N) (frac : string) (k : nat) :
  nonempty frac = true -> String.length frac = k ->
  option_map N.of_uint (NilEmpty.uint_of_string frac) = Some f ->
  parse_decimal (str_nat i ++ String "." frac)%string
  = Some (Qred ((Z.of_N i * Z.pos (10 ^ Pos.of_nat k) + Z.of_N f)
                # (10 ^ Pos.of_nat k))).
Proof.
  intros Hne Hlen Hf. unfold parse_decimal, str_nat.
  rewrite split_point_digits. simpl obind. cbn [fst snd].
  fold (str_nat i). rewrite Hne.
  destruct (str_nat_shape i) as [c [s [E _]]]. rewrite E. simpl nonempty.
  rewrite <- E. simpl andb. rewrite parse_str_nat. simpl obind.
  destruct (NilEmpty.uint_of_string frac) as [u|]; [|discriminate].
  simpl in Hf. inversion Hf. subst f. simpl obind.
  now rewrite DecimalN.Unsigned.of_to, Hlen.
Qed.

Lemma repr_float_unfold (q : Q) :
  repr_float q
  = ((if (rint (q * 100) <? 0)%Z then "-" else "")
     ++ (str_nat (Z.to_N (Z.abs (rint (q * 100))) / 100)
         ++ String "."
              (if (Z.to_N (Z.abs (rint (q * 100))) mod 10 =? 0)%N
               then str_nat (Z.to_N (Z.abs (rint (q * 100))) mod 100 / 10)
               else (str_nat (Z.to_N (Z.abs (rint (q * 100))) mod 100 / 10)
                     ++ str_nat (Z.to_N (Z.abs (rint (q * 100))) mod 10)))))%string.
Proof. reflexivity. Qed.

(** The text of an average reads back as the average. *)
Lemma parse_float_repr (x : Q) :
  parse_float (repr_float (round2 x)) = Some (round2 x).
Proof.
  rewrite repr_float_unfold.
  pose proof (round2_canonical x) as Hq.
  set (q := round2 x) in *. set (h := rint (q * 100)) in *.
  set (a := Z.to_N (Z.abs h)).
  assert (Ha : Z.of_N a = Z.abs h) by (unfold a; lia).
  assert (D1 : (a mod 100 / 10 < 10)%N)
    by (zify; Z.to_euclidean_division_equations; lia).
  assert (D0 : (a mod 10 < 10)%N)
    by (zify; Z.to_euclidean_division_equations; lia).
  set (frac := if (a mod 10 =? 0)%N then str_nat (a mod 100 / 10)
               else (str_nat (a mod 100 / 10) ++ str_nat (a mod 10))%string).
  assert (P : parse_decimal (str_nat (a / 100) ++ String "." frac)%string
              = Some (Qred (Z.of_N a # 100))).
  { unfold frac. destruct (a mod 10 =? 0)%N eqn:E.
    - apply N.eqb_eq in E.
      destruct (one_digit _ D1) as [Hne Hlen].
      rewrite (parse_decimal_str (a / 100) (a mod 100 / 10) _ 1 Hne Hlen)
        by (now rewrite parse_str_nat; simpl;
            rewrite DecimalN.Unsigned.of_to).
      f_equal. apply Qred_complete. unfold Qeq. cbn [Qnum Qden].
      change (Z.pos (10 ^ Pos.of_nat 1)) with 10%Z.
      zify. Z.to_euclidean_division_equations. lia.
    - destruct (two_digits _ _ D1 D0) as [Hne [Hlen Hval]].
      rewrite (parse_decimal_str (a / 100) _ _ 2 Hne Hlen Hval).
      f_equal. apply Qred_complete. unfold Qeq. cbn [Qnum Qden].
      change (Z.pos (10 ^ Pos.of_nat 2)) with 100%Z.
      zify. Z.to_euclidean_division_equations. lia. }
  destruct (h <? 0)%Z eqn:S.
  - apply Z.ltb_lt in S. simpl append. simpl parse_float.
    rewrite P. cbn [option_map]. f_equal. rewrite Hq, <- Qred_opp.
    apply Qred_complete. unfold Qeq, Qopp. cbn [Qnum Qden]. lia.
  - apply Z.ltb_ge in S. simpl append.
    destruct (str_nat_shape (a / 100)) as [c [s [E Hc]]].
    assert (PF : forall t, parse_float (str_nat (a / 100) ++ t)%string
                           = parse_decimal (str_nat (a / 100) ++ t)%string).
    { intros t. rewrite E. simpl. now rewrite Hc. }
    rewrite PF, P. f_equal. rewrite Hq.
    apply Qred_complete. unfold Qeq. cbn [Qnum Qden]. lia.
Qed.

Lemma parse_student_fields (r : Student) :
  (exists x, average_marks r = round2 x) ->
  parse_student (csv_fields r) = Some r.
Proof.
  intros [x Hx]. destruct r as [id loc a m1 m2 m3 m4 m5 avg tot].
  simpl in Hx. subst avg. unfold csv_fields, parse_student.
  cbv beta iota. cbn [student_id location age sql_marks excel_marks
    python_marks power_bi_marks english_marks average_marks total_marks].
  rewrite !parse_int_str, parse_float_repr. reflexivity.
Qed.

Lemma traverse_map_id {A B : Type} (f : B -> option A) (g : A -> B)
  (l : list A) :
  Forall (fun a => f (g a) = Some a) l -> traverse f (map g l) = Some l.
Proof.
  induction 1 as [|a l E _ IH]; simpl; [reflexivity|].
  now rewrite E, IH.
Qed.

Lemma read_to_csv (l : list Student) :
  Forall (fun r => exists x, average_marks r = round2 x) l ->
  read_csv (to_csv l) = Some l.
Proof.
  intros F. unfold read_csv, to_csv. rewrite tokenize_rows.
  - destruct (list_eq_dec string_dec csv_header csv_header) as [_|N];
      [|congruence].
    apply traverse_map_id.
    eapply Forall_impl; [|exact F]. intros r. apply parse_student_fields.
  - constructor; [split; discriminate|].
    rewrite Forall_map, Forall_forall. intros r _. split; discriminate.
Qed.

Lemma filtered_df_Forall (P : Student -> Prop) df f :
  Forall P df -> Forall P (filtered_df df f).
Proof.
  rewrite !Forall_forall. intros H r Hr. apply H.
  rewrite filtered_df_filter in Hr. apply filter_In in Hr. tauto.
Qed.


(** ** Loaded frames as student records *)

Lemma obind_Some {A B : Type} (o : option A) (k : A -> option B) (b : B) :
  obind o k = Some b -> exists a, o = Some a /\ k a = Some b.
Proof. destruct o as [a|]; simpl; [eauto|discriminate]. Qed.

Lemma traverse_Forall2 {A B : Type} (f : A -> option B) l m :
  traverse f l = Some m -> Forall2 (fun a b => f a = Some b) l m.
Proof.
  revert m. induction l as [|a l IH]; simpl; intros m H.
  - inversion H. constructor.
  - apply obind_Some in H. destruct H as [b [E H]].
    apply obind_Some in H. destruct H as [bs [E' H]].
    inversion H. subst. constructor; auto.
Qed.

Tactic Notation "obind_inv" hyp(H) "as" ident(x) ident(E) :=
  apply obind_Some in H; destruct H as [x [E H]].

Lemma to_int_Some v z : to_int v = Some z -> v = VInt z.
Proof. destruct v; simpl; congruence. Qed.

Lemma as_float_Some v q : as_float v = Some q -> v = VFloat q.
Proof. destruct v; simpl; congruence. Qed.

(** The records read from a loaded frame have the derived average and
    total. *)
Lemma students_derived (csv df : DataFrame) (rs : list Student) :
  rectangular csv -> load_data csv = Ok df -> students df = Some rs ->
  Forall derived rs.
Proof.
  intros Rect L S. pose proof (load_data_rows csv df Rect L) as F.
  apply traverse_Forall2 in S.
  rewrite Forall_forall. intros st Hst.
  destruct (In_nth_error _ _ Hst) as [i Hi].
  destruct (Forall2_nth_r _ _ _ _ _ S Hi) as [r [Hr Hs]].
  destruct (Forall2_nth_r _ _ _ _ _ F Hr) as [r0 [_ [Keep K]]].
  destruct K as [cells [qs [t [tq [K1 [Hqs [Havg [Htot [_ [_ Hint]]]]]]]]]].
  unfold student_of in Hs.
  obind_inv Hs as sid E1. obind_inv Hs as loc E2. obind_inv Hs as a E3.
  obind_inv Hs as m1 E4. obind_inv Hs as m2 E5. obind_inv Hs as m3 E6.
  obind_inv Hs as m4 E7. obind_inv Hs as m5 E8. obind_inv Hs as avg E9.
  obind_inv Hs as tot E10. inversion Hs. subst st. clear Hs.
  apply obind_Some in E4, E5, E6, E7, E8, E9, E10.
  destruct E4 as [v1 [L1 T1]], E5 as [v2 [L2 T2]], E6 as [v3 [L3 T3]],
    E7 as [v4 [L4 T4]], E8 as [v5 [L5 T5]], E9 as [va [La Ta]],
    E10 as [vt [Lt Tt]].
  apply to_int_Some in T1, T2, T3, T4, T5, Tt. apply as_float_Some in Ta.
  subst v1 v2 v3 v4 v5 va vt.
  rewrite Keep in L1, L2, L3, L4, L5 by discriminate.
  assert (C : cells = [VInt m1; VInt m2; VInt m3; VInt m4; VInt m5]).
  { unfold subject_cols in K1.
    repeat match goal with
           | H : Forall2 _ (_ :: _) _ |- _ => inversion H; subst; clear H
           | H : Forall2 _ [] _ |- _ => inversion H; subst; clear H
           end.
    repeat f_equal; congruence. }
  subst cells. simpl in Hqs. inversion Hqs. subst qs. clear Hqs.
  specialize (Hint [m1; m2; m3; m4; m5] eq_refl). subst t.
  rewrite La in Havg. rewrite Lt in Htot.
  inversion Havg. inversion Htot. split; reflexivity.
Qed.


(** * The rest of the page *)

(** ** Filters applied one after another *)

(** X1. Filtering a filtered table again with the same filter changes
    nothing, two filters give the same table in either order, and the
    filtered table of two tables put end to end is the two filtered tables
    put end to end. *)
Theorem filtered_df_composes (df a b : list Student) (f g : FilterSpec) :
  filtered_df (filtered_df df f) f = filtered_df df f /\
  filtered_df (filtered_df df f) g = filtered_df (filtered_df df g) f /\
  filtered_df (a ++ b) f = filtered_df a f ++ filtered_df b f.
Proof.
  rewrite !filtered_df_filter, !filter_filter. repeat split.
  - apply filter_ext. intros r. now destruct (keeps f r).
  - apply filter_ext. intros r. apply andb_comm.
  - apply filter_app.
Qed.

(** ** Distinct values and their counts *)

Section UniqueFacts.
Context {A : Type}.
Variable eqb : A -> A -> bool.
Hypothesis eqb_spec : forall x y, eqb x y = true <-> x = y.

Lemma eqb_same x : eqb x x = true.
Proof. now apply eqb_spec. Qed.

Lemma unique_In l x : In x (unique eqb l) <-> In x l.
Proof.
  induction l as [|a l IH]; simpl; [tauto|].
  rewrite filter_In, IH. split.
  - intros [H|[H _]]; auto.
  - intros [H|H]; [now left|].
    destruct (eqb a x) eqn:E.
    + left. now apply eqb_spec.
    + right. split; [assumption|reflexivity].
Qed.

Lemma unique_NoDup l : NoDup (unique eqb l).
Proof.
  induction l as [|a l IH]; simpl; constructor.
  - rewrite filter_In. intros [_ H]. now rewrite eqb_same in H.
  - now apply NoDup_filter.
Qed.

Lemma indicator_sum ks x :
  NoDup ks -> In x ks ->
  list_sum (map (fun k => if eqb k x then 1%nat else 0%nat) ks) = 1%nat.
Proof.
  induction 1 as [|k ks N _ IH]; simpl; [contradiction|].
  intros [->|H].
  - rewrite eqb_same. f_equal.
    clear IH. induction ks as [|a ks IHk]; simpl; [reflexivity|].
    destruct (eqb a x) eqn:E.
    + apply eqb_spec in E. subst. elim N. now left.
    + apply IHk. intros C. apply N. now right.
  - destruct (eqb k x) eqn:E.
    + apply eqb_spec in E. subst. contradiction.
    + now apply IH.
Qed.

(** The counts of the distinct values add up to the number of rows. *)
Lemma count_partition ks l :
  NoDup ks -> (forall x, In x l -> In x ks) ->
  list_sum (map (fun k => count eqb k l) ks) = length l.
Proof.
  intros N. unfold count. induction l as [|x l IH]; simpl; intros H.
  - clear. induction ks as [|k ks IHk]; simpl; [reflexivity|assumption].
  - rewrite <- IH by (intros; apply H; auto).
    change (S ?n) with (1 + n)%nat.
    rewrite <- (indicator_sum ks x N (H x (or_introl eq_refl))).
    clear. induction ks as [|k ks IHk]; simpl; [reflexivity|].
    rewrite IHk. destruct (eqb k x); simpl; lia.
Qed.

Lemma count_positive l x : In x l -> (1 <= count eqb x l)%nat.
Proof.
  unfold count. induction l as [|a l IH]; simpl; [contradiction|].
  intros [->|H].
  - rewrite eqb_same. simpl. lia.
  - destruct (eqb x a); simpl; [lia|auto].
Qed.

Lemma value_counts_perm l :
  Permutation (value_counts eqb l)
              (map (fun k => (k, count eqb k l)) (unique eqb l)).
Proof. apply sort_perm. Qed.

Lemma value_counts_keys l :
  Permutation (map fst (value_counts eqb l)) (unique eqb l).
Proof.
  rewrite (Permutation_map fst (value_counts_perm l)), map_map. simpl.
  now rewrite map_id.
Qed.

Lemma value_counts_In l k n :
  In (k, n) (value_counts eqb l) <-> In k l /\ n = count eqb k l.
Proof.
  split.
  - intros H. apply (Permutation_in _ (value_counts_perm l)) in H.
    apply in_map_iff in H. destruct H as [k' [E H]]. inversion E. subst.
    split; [now apply unique_In|reflexivity].
  - intros [H ->].
    apply (Permutation_in _ (Permutation_sym (value_counts_perm l))).
    apply in_map_iff. exists k. split; [reflexivity|now apply unique_In].
Qed.
End UniqueFacts.

Lemma list_sum_perm (l m : list nat) :
  Permutation l m -> list_sum l = list_sum m.
Proof.
  induction 1; simpl; lia.
Qed.

Lemma value_counts_total {A : Type} (eqb : A -> A -> bool) (l : list A) :
  (forall x y, eqb x y = true <-> x = y) ->
  list_sum (map snd (value_counts eqb l)) = length l.
Proof.
  intros S.
  rewrite (list_sum_perm _ _ (Permutation_map snd (value_counts_perm eqb l))).
  rewrite map_map. simpl. apply (count_partition eqb S).
  - now apply unique_NoDup.
  - intros x. now apply unique_In.
Qed.

Lemma value_counts_sorted {A : Type} (eqb : A -> A -> bool) (l : list A) :
  StronglySorted (fun a b : A * nat => (snd b <= snd a)%nat)
                 (value_counts eqb l).
Proof.
  unfold value_counts.
  set (ahead := fun x y : A * nat => Nat.leb (snd y) (snd x)).
  assert (S : StronglySorted (fun a b => ahead a b = true)
                (sort ahead (map (fun k => (k, count eqb k l))
                                 (unique eqb l)))).
  { apply sort_sorted; unfold ahead; intros x y.
    - rewrite Nat.leb_gt, Nat.leb_le. lia.
    - intros z. rewrite !Nat.leb_le. lia. }
  induction S as [|a m S IH F]; constructor; [exact IH|].
  eapply Forall_impl; [|exact F]. intros b Hb. now apply Nat.leb_le.
Qed.

Lemma string_eqb_spec (x y : string) : String.eqb x y = true <-> x = y.
Proof. apply String.eqb_eq. Qed.

Lemma Z_eqb_spec (x y : Z) : Z.eqb x y = true <-> x = y.
Proof. apply Z.eqb_eq. Qed.

Lemma count_map {A B : Type} (eqb : B -> B -> bool) (g : A -> B) (k : B)
  (l : list A) :
  count eqb k (map g l) = length (filter (fun r => eqb k (g r)) l).
Proof.
  unfold count. induction l as [|x l IH]; simpl; [reflexivity|].
  destruct (eqb k (g x)); simpl; now rewrite IH.
Qed.

(** X2. The location counts hold each location of the filtered table
    once, with the number of its records, which is at least one; the
    counts go down from row to row and add up to the size of the filtered
    table. *)
Theorem location_counts_spec (df : list Student) (f : FilterSpec) :
  NoDup (map fst (location_counts (filtered_df df f))) /\
  (forall loc n,
     In (loc, n) (location_counts (filtered_df df f)) <->
     (exists r, In r (filtered_df df f) /\ location r = loc) /\
     n = length (filter (fun r => String.eqb loc (location r))
                        (filtered_df df f))) /\
  Forall (fun p => (1 <= snd p)%nat) (location_counts (filtered_df df f)) /\
  StronglySorted (fun a b => (snd b <= snd a)%nat)
                 (location_counts (filtered_df df f)) /\
  list_sum (map snd (location_counts (filtered_df df f)))
  = length (filtered_df df f).
Proof.
  set (l := filtered_df df f). unfold location_counts.
  split.
  { apply (Permutation_NoDup
             (Permutation_sym (value_counts_keys String.eqb _))).
    apply (unique_NoDup String.eqb string_eqb_spec). }
  split.
  { intros loc n.
    rewrite (value_counts_In String.eqb string_eqb_spec), in_map_iff,
      count_map.
    split; intros [[r H] E]; (split; [exists r; tauto|exact E]). }
  split.
  { rewrite Forall_forall. intros [loc n] H.
    apply (value_counts_In String.eqb string_eqb_spec) in H.
    destruct H as [H ->]. simpl.
    now apply (count_positive String.eqb string_eqb_spec). }
  split; [apply value_counts_sorted|].
  rewrite (value_counts_total String.eqb _ string_eqb_spec).
  apply length_map.
Qed.

(** X3. The age counts hold each age of the filtered table once, with the
    number of its records, which is at least one; the ages go up from row
    to row and the counts add up to the size of the filtered table. *)
Theorem age_counts_spec (df : list Student) (f : FilterSpec) :
  StronglySorted (fun a b => fst a < fst b) (age_counts (filtered_df df f)) /\
  (forall a n,
     In (a, n) (age_counts (filtered_df df f)) <->
     (exists r, In r (filtered_df df f) /\ age r = a) /\
     n = length (filter (fun r => Z.eqb a (age r)) (filtered_df df f))) /\
  Forall (fun p => (1 <= snd p)%nat) (age_counts (filtered_df df f)) /\
  list_sum (map snd (age_counts (filtered_df df f)))
  = length (filtered_df df f).
Proof.
  set (l := filtered_df df f). unfold age_counts.
  set (vc := value_counts Z.eqb (map age l)).
  set (ahead := fun x y : Z * nat => Z.leb (fst x) (fst y)).
  assert (P : Permutation (sort ahead vc) vc) by apply sort_perm.
  assert (N : NoDup (map fst (sort ahead vc))).
  { apply (Permutation_NoDup (l := map fst vc)).
    - symmetry. now apply Permutation_map.
    - apply (Permutation_NoDup
               (Permutation_sym (value_counts_keys Z.eqb _))).
      apply (unique_NoDup Z.eqb Z_eqb_spec). }
  assert (I : forall a n, In (a, n) (sort ahead vc) <->
                (exists r, In r l /\ age r = a) /\
                n = length (filter (fun r => Z.eqb a (age r)) l)).
  { intros a n. rewrite sort_In. unfold vc.
    rewrite (value_counts_In Z.eqb Z_eqb_spec), in_map_iff, count_map.
    split; intros [[r H] E]; (split; [exists r; tauto|exact E]). }
  split.
  { assert (S : StronglySorted (fun a b => ahead a b = true)
                               (sort ahead vc)).
    { apply sort_sorted; unfold ahead; intros x y.
      - rewrite Z.leb_gt, Z.leb_le. lia.
      - intros z. rewrite !Z.leb_le. lia. }
    clear P I. induction S as [|a m S IH F]; constructor.
    - apply IH. now inversion N.
    - simpl in N. inversion N as [|? ? Hn _]. subst.
      rewrite Forall_forall in *. intros b Hb.
      pose proof (F b Hb) as Hab. unfold ahead in Hab.
      apply Z.leb_le in Hab.
      assert (fst a <> fst b)
        by (intros E; apply Hn; rewrite E; now apply in_map).
      lia. }
  split; [exact I|].
  split.
  { rewrite Forall_forall. intros [a n] H. apply I in H.
    destruct H as [[r [Hr Ha]] ->]. simpl.
    assert (In r (filter (fun r => Z.eqb a (age r)) l)).
    { apply filter_In. split; [assumption|]. subst. apply Z.eqb_refl. }
    destruct (filter (fun r => Z.eqb a (age r)) l); [contradiction|].
    simpl. lia. }
  rewrite (list_sum_perm _ _ (Permutation_map snd P)). unfold vc.
  rewrite (value_counts_total Z.eqb _ Z_eqb_spec). apply length_map.
Qed.

(** ** The sidebar *)

Lemma fold_max_spec (xs : list Z) (x : Z) :
  x <= fold_left Z.max xs x /\
  (forall y, In y xs -> y <= fold_left Z.max xs x) /\
  (fold_left Z.max xs x = x \/ In (fold_left Z.max xs x) xs).
Proof.
  revert x. induction xs as [|a xs IH]; intros x; simpl.
  - repeat split; [lia|contradiction|now left].
  - destruct (IH (Z.max x a)) as [H1 [H2 H3]].
    repeat split.
    + lia.
    + intros y [<-|Hy]; [lia|now apply H2].
    + destruct H3 as [H3|H3]; [|now right; right].
      rewrite H3. destruct (Z.max_spec x a) as [[_ E]|[_ E]]; rewrite E;
        [right; now left|now left].
Qed.

Lemma fold_min_spec (xs : list Z) (x : Z) :
  fold_left Z.min xs x <= x /\
  (forall y, In y xs -> fold_left Z.min xs x <= y) /\
  (fold_left Z.min xs x = x \/ In (fold_left Z.min xs x) xs).
Proof.
  revert x. induction xs as [|a xs IH]; intros x; simpl.
  - repeat split; [lia|contradiction|now left].
  - destruct (IH (Z.min x a)) as [H1 [H2 H3]].
    repeat split.
    + lia.
    + intros y [<-|Hy]; [lia|now apply H2].
    + destruct H3 as [H3|H3]; [|now right; right].
      rewrite H3. destruct (Z.min_spec x a) as [[_ E]|[_ E]]; rewrite E;
        [now left|right; now left].
Qed.

Lemma Zmax_list_spec (xs : list Z) (m : Z) :
  Zmax_list xs = Some m -> In m xs /\ forall y, In y xs -> y <= m.
Proof.
  destruct xs as [|x xs]; simpl; [discriminate|].
  intros H. inversion H. subst m. clear H.
  destruct (fold_max_spec xs x) as [H1 [H2 H3]]. split.
  - destruct H3 as [->|H3]; auto.
  - intros y [<-|Hy]; auto.
Qed.

Lemma Zmin_list_spec (xs : list Z) (m : Z) :
  Zmin_list xs = Some m -> In m xs /\ forall y, In y xs -> m <= y.
Proof.
  destruct xs as [|x xs]; simpl; [discriminate|].
  intros H. inversion H. subst m. clear H.
  destruct (fold_min_spec xs x) as [H1 [H2 H3]]. split.
  - destruct H3 as [->|H3]; auto.
  - intros y [<-|Hy]; auto.
Qed.

Lemma age_bounds_nonempty (df : list Student) :
  df <> [] ->
  exists lo hi,
    age_bounds df = Ok (lo, hi) /\
    (forall r, In r df -> lo <= age r <= hi) /\
    (exists r, In r df /\ age r = lo) /\
    (exists r, In r df /\ age r = hi).
Proof.
  intros Hne. unfold age_bounds.
  destruct (Zmin_list (map age df)) as [lo|] eqn:Elo;
    [|destruct df; [congruence|discriminate]].
  destruct (Zmax_list (map age df)) as [hi|] eqn:Ehi;
    [|destruct df; [congruence|discriminate]].
  apply Zmin_list_spec in Elo. apply Zmax_list_spec in Ehi.
  destruct Elo as [Ilo Hlo], Ehi as [Ihi Hhi].
  exists lo, hi. split; [reflexivity|]. split; [|split].
  - intros r Hr. split; [apply Hlo|apply Hhi]; now apply in_map.
  - apply in_map_iff in Ilo. destruct Ilo as [r [E H]]. eauto.
  - apply in_map_iff in Ihi. destruct Ihi as [r [E H]]. eauto.
Qed.

(** X4. On a table with no row the ends of the age slider cannot be
    computed: the script stops with a [ValueError] before any filter runs.
    On any other table the ends are the smallest and the largest age of
    the table, so every age lies between them. *)
Theorem age_bounds_spec (df : list Student) :
  match df with
  | [] => age_bounds df = Raise ValueError /\
          default_filters df = Raise ValueError
  | _ :: _ =>
      exists lo hi,
        age_bounds df = Ok (lo, hi) /\
        (forall r, In r df -> lo <= age r <= hi) /\
        (exists r, In r df /\ age r = lo) /\
        (exists r, In r df /\ age r = hi)
  end.
Proof.
  destruct df as [|r df]; [split; reflexivity|].
  apply age_bounds_nonempty. discriminate.
Qed.


(** X6. The options of the location selector are "All" followed by the
    locations of the table, each once, in ascending order; and choosing a
    location of the list, with an age range and a minimum average that
    every record passes, never gives an empty filtered table. *)
Theorem all_locations_spec (df : list Student) :
  exists locs,
    all_locations df = "All" :: locs /\
    StronglySorted (fun a b => String.leb a b = true) locs /\
    NoDup locs /\
    (forall loc, In loc locs <-> exists r, In r df /\ location r = loc) /\
    (forall f, In (selected_location f) locs ->
       (forall r, In r df -> age_mask f r = true /\ average_mask f r = true) ->
       filtered_df df f <> []).
Proof.
  exists (sort String.leb (unique String.eqb (map location df))).
  assert (I : forall loc,
             In loc (sort String.leb (unique String.eqb (map location df)))
             <-> exists r, In r df /\ location r = loc).
  { intros loc.
    rewrite sort_In, (unique_In String.eqb string_eqb_spec), in_map_iff.
    split; intros [r [H1 H2]]; exists r; auto. }
  split; [reflexivity|]. split; [|split; [|split; [exact I|]]].
  - apply sort_sorted; [apply string_leb_total|apply string_leb_trans].
  - apply (Permutation_NoDup (Permutation_sym (sort_perm _ _))).
    apply (unique_NoDup String.eqb string_eqb_spec).
  - intros f Hin Wide. apply I in Hin. destruct Hin as [r [Hr Hloc]].
    assert (K : In r (filtered_df df f)).
    { rewrite filtered_df_filter. apply filter_In. split; [assumption|].
      destruct (Wide r Hr) as [Ha Hm]. unfold keeps, location_mask.
      rewrite Ha, Hm, Hloc, String.eqb_refl. now rewrite orb_true_r. }
    intros C. rewrite C in K. contradiction.
Qed.

(** ** The key metrics *)

Lemma fold_Qmax_spec (xs : list Q) (x : Q) :
  (x <= fold_left (fun m y => if Qle_bool m y then y else m) xs x)%Q /\
  (forall y, In y xs ->
     (y <= fold_left (fun m y => if Qle_bool m y then y else m) xs x)%Q) /\
  (fold_left (fun m y => if Qle_bool m y then y else m) xs x = x \/
   In (fold_left (fun m y => if Qle_bool m y then y else m) xs x) xs).
Proof.
  revert x. induction xs as [|a xs IH]; intros x; simpl.
  - repeat split; [apply Qle_refl|contradiction|now left].
  - destruct (IH (if Qle_bool x a then a else x)) as [H1 [H2 H3]].
    assert (B : (x <= (if Qle_bool x a then a else x))%Q /\
                (a <= (if Qle_bool x a then a else x))%Q).
    { destruct (Qle_bool x a) eqn:E.
      - apply Qle_bool_iff in E. split; [assumption|apply Qle_refl].
      - split; [apply Qle_refl|].
        apply Qlt_le_weak, Qnot_le_lt. intros C.
        apply Qle_bool_iff in C. congruence. }
    destruct B as [B1 B2]. repeat split.
    + eapply Qle_trans; eassumption.
    + intros y [<-|Hy]; [eapply Qle_trans; eassumption|now apply H2].
    + destruct H3 as [H3|H3]; [|now right; right].
      rewrite H3. destruct (Qle_bool x a); [right; now left|now left].
Qed.

Lemma Qmax_list_spec (xs : list Q) (t : Q) :
  Qmax_list xs = Some t -> In t xs /\ forall y, In y xs -> (y <= t)%Q.
Proof.
  destruct xs as [|x xs]; simpl; [discriminate|].
  intros H. inversion H. subst t. clear H.
  destruct (fold_Qmax_spec xs x) as [H1 [H2 H3]]. split.
  - destruct H3 as [->|H3]; auto.
  - intros y [<-|Hy]; auto.
Qed.

Lemma Qsum_le_bound (xs : list Q) (t : Q) :
  (forall y, In y xs -> (y <= t)%Q) ->
  (Qsum xs <= inject_Z (Z.of_nat (length xs)) * t)%Q.
Proof.
  induction xs as [|x xs IH]; intros H.
  - simpl. rewrite Qmult_0_l. apply Qle_refl.
  - change (Qsum (x :: xs)) with (x + Qsum xs)%Q.
    assert (E : (inject_Z (Z.of_nat (length (x :: xs))) * t
                 == t + inject_Z (Z.of_nat (length xs)) * t)%Q).
    { simpl length. rewrite Nat2Z.inj_succ. unfold Z.succ.
      rewrite inject_Z_plus. ring. }
    rewrite E. apply Qplus_le_compat.
    + apply H. now left.
    + apply IH. intros y Hy. apply H. now right.
Qed.

Lemma mean_le_bound (xs : list Q) (m t : Q) :
  mean xs = Some m -> (forall y, In y xs -> (y <= t)%Q) -> (m <= t)%Q.
Proof.
  destruct xs as [|x xs]; [discriminate|]. intros H B.
  assert (E : m = (Qsum (x :: xs)
                   / inject_Z (Z.of_nat (length (x :: xs))))%Q)
    by (unfold mean in H; congruence).
  rewrite E. apply Qle_shift_div_r.
  - change 0%Q with (inject_Z 0). rewrite <- Zlt_Qlt. simpl length. lia.
  - rewrite Qmult_comm. now apply Qsum_le_bound.
Qed.

Lemma unique_nodup_length (l : list string) :
  length (unique String.eqb l) = length (nodup string_dec l).
Proof.
  apply Permutation_length. apply NoDup_Permutation.
  - apply (unique_NoDup String.eqb string_eqb_spec).
  - apply NoDup_nodup.
  - intros x. rewrite nodup_In. apply (unique_In String.eqb string_eqb_spec).
Qed.

Lemma groupby_length {A : Type} (key : A -> string) (l : list A) :
  length (groupby key l) = length (unique String.eqb (map key l)).
Proof.
  unfold groupby. now rewrite length_map, sort_length, unique_nodup_length.
Qed.

Lemma filter_length_le {A : Type} (p : A -> bool) (l : list A) :
  (length (filter p l) <= length l)%nat.
Proof.
  induction l as [|x l IH]; simpl; [lia|]. destruct (p x); simpl; lia.
Qed.


Lemma nlargest_head_largest {A : Type} (n : nat) (key : A -> Q) (l : list A)
  (h : A) (rest : list A) :
  nlargest n key l = h :: rest ->
  In h l /\ forall r, In r l -> (key r <= key h)%Q.
Proof.
  intros E. destruct (nlargest_sorted n key l) as [S C].
  set (ahead := fun x y => Qle_bool (key y) (key x)) in *.
  assert (Hh : In h (nlargest n key l)) by (rewrite E; now left).
  assert (Sub : forall x, In x (nlargest n key l) -> In x l).
  { intros x Hx. unfold nlargest in Hx. apply (sort_In ahead).
    rewrite <- (firstn_skipn n (sort ahead l)). apply in_or_app. now left. }
  split; [now apply Sub|].
  intros r Hr. apply (sort_In ahead) in Hr.
  rewrite <- (firstn_skipn n (sort ahead l)) in Hr.
  apply in_app_or in Hr. destruct Hr as [Hr|Hr].
  - change (firstn n (sort ahead l)) with (nlargest n key l) in Hr.
    rewrite E in Hr, S.
    destruct Hr as [<-|Hr]; [apply Qle_refl|].
    inversion S as [|? ? _ F]. subst. rewrite Forall_forall in F.
    now apply F.
  - now apply C.
Qed.

(** X8. On a page that shows the views, the table of top performers has a
    first row, and the average on it is the top score of the key
    metrics. *)
Theorem top_score_is_first_performer (df : list Student) (f : FilterSpec)
  (v : Views) :
  dashboard df f = Rendered v ->
  exists p rest t,
    v_top_students v = p :: rest /\
    m_top_score (v_metrics v) = Some t /\
    (p_average_marks p == t)%Q.
Proof.
  intros H. destruct (dashboard_rendered _ _ _ H) as [Hne ->]. simpl.
  set (l := filtered_df df f) in *. unfold top_students.
  destruct (nlargest 10 average_marks l) as [|h rest] eqn:E.
  { exfalso. unfold nlargest in E.
    assert (L : length (firstn 10
                  (sort (fun x y => Qle_bool (average_marks y)
                                             (average_marks x)) l))
                = 0%nat) by now rewrite E.
    rewrite length_firstn, sort_length in L.
    destruct l; [congruence|simpl in L; lia]. }
  destruct (nlargest_head_largest _ _ _ _ _ E) as [Hh Hmax].
  destruct (Qmax_list (map average_marks l)) as [t|] eqn:Et;
    [|destruct l; [congruence|discriminate]].
  exists (performer h), (map performer rest), t.
  split; [reflexivity|]. split; [reflexivity|]. simpl.
  apply Qmax_list_spec in Et. destruct Et as [It Ht].
  apply in_map_iff in It. destruct It as [r [Er Hr]].
  apply Qle_antisym.
  - apply Ht. now apply in_map.
  - rewrite <- Er. now apply Hmax.
Qed.

(** X9. On a page that shows the views, the best-subject summary has the
    five subjects in their order; for each, the highest score is the mark
    of some filtered record, no filtered record has a higher mark in that
    subject, and the average score is a number. *)
Theorem best_subjects_spec (df : list Student) (f : FilterSpec) (v : Views) :
  dashboard df f = Rendered v ->
  map (fun x => fst (fst x)) (v_best_subjects v) = subject_names /\
  (forall c name, In (c, name) subject_mapping ->
     exists top avg,
       In (name, Some top, Some avg) (v_best_subjects v) /\
       (exists r, In r (filtered_df df f) /\ c r = top) /\
       (forall r, In r (filtered_df df f) -> c r <= top)).
Proof.
  intros H. destruct (dashboard_rendered _ _ _ H) as [Hne ->].
  cbn [v_best_subjects views].
  set (l := filtered_df df f) in *.
  split; [reflexivity|].
  intros c name Hin.
  destruct (Zmax_list (map c l)) as [top|] eqn:Et;
    [|destruct l; [congruence|discriminate]].
  destruct (mean (column c l)) as [m|] eqn:Em;
    [|destruct l; [congruence|discriminate]].
  exists top, (round2 m). split.
  - unfold best_subjects. apply in_map_iff. exists (c, name).
    split; [|exact Hin]. simpl. now rewrite Et, Em.
  - apply Zmax_list_spec in Et. destruct Et as [It Ht]. split.
    + apply in_map_iff in It. destruct It as [r [E Hr]]. eauto.
    + intros r Hr. apply Ht. now apply in_map.
Qed.

(** ** The heat map and the statistics *)

Lemma round2_idempotent (x : Q) : round2 (round2 x) = round2 x.
Proof.
  unfold round2 at 1. now rewrite round2_hundredths.
Qed.

Lemma round2_whole (k : Z) : (round2 (inject_Z k) == inject_Z k)%Q.
Proof.
  unfold round2.
  rewrite (rint_comp (inject_Z k * 100) (inject_Z (k * 100)))
    by (rewrite inject_Z_mult; reflexivity).
  rewrite rint_inject_Z, Qred_correct.
  unfold Qeq, inject_Z. simpl. lia.
Qed.

(** X10. The heat map has one row per location of the filtered table, in
    ascending order of location, the same locations as the location means;
    every row holds five numbers, one per subject, none of them undefined,
    each with at most two decimals. *)
Theorem heatmap_data_spec (df : list Student) (f : FilterSpec) :
  StronglySorted (fun a b => String.leb a b = true)
                 (map fst (heatmap_data (filtered_df df f))) /\
  NoDup (map fst (heatmap_data (filtered_df df f))) /\
  (forall loc, In loc (map fst (heatmap_data (filtered_df df f))) <->
               exists r, In r (filtered_df df f) /\ location r = loc) /\
  Permutation (map fst (heatmap_data (filtered_df df f)))
              (map fst (location_avg (filtered_df df f))) /\
  Forall (fun row =>
            exists a b c d e,
              snd row = [Some a; Some b; Some c; Some d; Some e] /\
              Forall (fun q => round2 q = q) [a; b; c; d; e])
         (heatmap_data (filtered_df df f)).
Proof.
  set (l := filtered_df df f).
  assert (K : map fst (heatmap_data l) = map fst (groupby location l)).
  { unfold heatmap_data. rewrite map_map. reflexivity. }
  rewrite K.
  split; [apply groupby_keys_sorted|].
  split; [apply groupby_keys_NoDup|].
  split; [intros loc; apply groupby_keys_In|].
  split.
  { unfold location_avg.
    rewrite (Permutation_map fst (sort_perm _ _)), map_map. reflexivity. }
  unfold heatmap_data. rewrite Forall_map, Forall_forall.
  intros [k g] Hg. apply groupby_In in Hg. destruct Hg as [_ Hne].
  unfold subjects. cbn [snd map].
  assert (D : forall c, exists m, mean (column c g) = Some m).
  { intros c. destruct g as [|r g]; [congruence|]. simpl. eauto. }
  destruct (D sql_marks) as [m1 ->], (D excel_marks) as [m2 ->],
    (D python_marks) as [m3 ->], (D power_bi_marks) as [m4 ->],
    (D english_marks) as [m5 ->].
  exists (round2 m1), (round2 m2), (round2 m3), (round2 m4), (round2 m5).
  split; [reflexivity|].
  repeat constructor; apply round2_idempotent.
Qed.

Lemma quantile_defined (p : Q) (xs : list Q) :
  xs <> [] -> quantile p xs <> None.
Proof.
  intros H. unfold quantile.
  destruct (sort Qle_bool xs) as [|x s] eqn:E; [|discriminate].
  exfalso. apply H. apply length_zero_iff_nil.
  rewrite <- (sort_length Qle_bool xs), E. reflexivity.
Qed.

Lemma describe_spec (xs : list Q) :
  (d_count (describe xs) == inject_Z (Z.of_nat (length xs)))%Q /\
  (xs <> [] ->
   d_mean (describe xs) <> None /\ d_min (describe xs) <> None /\
   d_25 (describe xs) <> None /\ d_50 (describe xs) <> None /\
   d_75 (describe xs) <> None /\ d_max (describe xs) <> None) /\
  (d_std (describe xs) = None <-> (length xs <= 1)%nat).
Proof.
  split; [apply round2_whole|]. split.
  - intros H. unfold describe. cbn [d_mean d_min d_25 d_50 d_75 d_max].
    assert (Q : forall p, option_map round2 (quantile p xs) <> None).
    { intros p. pose proof (quantile_defined p xs H).
      destruct (quantile p xs); [discriminate|congruence]. }
    destruct xs as [|x xs]; [congruence|].
    repeat split; try apply Q; discriminate.
  - unfold describe, variance. cbn [d_std].
    destruct xs as [|x xs]; [simpl; split; [lia|reflexivity]|].
    cbn [mean]. destruct (length (x :: xs) <=? 1)%nat eqn:E.
    + apply Nat.leb_le in E. split; [intros _; exact E|reflexivity].
    + apply Nat.leb_gt in E. split; [discriminate|lia].
Qed.

(** X11. The statistics table has the five subjects in their order; for
    each, the count is the size of the filtered table, the mean, the
    minimum, the three quartiles and the maximum are numbers as soon as
    the filtered table has a row, and the standard deviation is undefined
    exactly when the filtered table has at most one row: a page that shows
    a single student shows no standard deviation. *)
Theorem stats_df_spec (df : list Student) (f : FilterSpec) :
  map fst (stats_df (filtered_df df f)) = subject_names /\
  Forall (fun s =>
            (d_count (snd s)
             == inject_Z (Z.of_nat (length (filtered_df df f))))%Q /\
            (filtered_df df f <> [] ->
             d_mean (snd s) <> None /\ d_min (snd s) <> None /\
             d_25 (snd s) <> None /\ d_50 (snd s) <> None /\
             d_75 (snd s) <> None /\ d_max (snd s) <> None) /\
            (d_std (snd s) = None <->
             (length (filtered_df df f) <= 1)%nat))
         (stats_df (filtered_df df f)).
Proof.
  set (l := filtered_df df f).
  split; [reflexivity|].
  assert (C : forall c, length (column c l) = length l)
    by (intros c; apply length_map).
  assert (N : forall c, l <> [] -> column c l <> []).
  { intros c H E. apply H. apply length_zero_iff_nil.
    rewrite <- (C c), E. reflexivity. }
  assert (Hc : forall c,
             (d_count (describe (column c l))
              == inject_Z (Z.of_nat (length l)))%Q /\
             (l <> [] ->
              d_mean (describe (column c l)) <> None /\
              d_min (describe (column c l)) <> None /\
              d_25 (describe (column c l)) <> None /\
              d_50 (describe (column c l)) <> None /\
              d_75 (describe (column c l)) <> None /\
              d_max (describe (column c l)) <> None) /\
             (d_std (describe (column c l)) = None <->
              (length l <= 1)%nat)).
  { intros c. destruct (describe_spec (column c l)) as [A [B S]].
    rewrite (C c) in A, S.
    split; [exact A|]. split; [|exact S]. intros H. apply B. now apply N. }
  unfold stats_df, subjects, subject_names. cbn [map combine].
  repeat (apply Forall_cons; [apply Hc|]). apply Forall_nil.
Qed.

(** ** The distribution of marks *)

(** X12. The distribution holds as many pairs as the number of selected
    subjects among the five times the size of the filtered table; it is
    empty, and the box plot is not drawn, exactly when the filtered table
    is empty or none of the five subjects is selected. *)
Theorem subject_data_size (df : list Student) (f : FilterSpec) :
  length (subject_data (filtered_df df f) (selected_subjects f))
  = (length (filter (fun n => selected n (selected_subjects f)) subject_names)
     * length (filtered_df df f))%nat /\
  (subject_data (filtered_df df f) (selected_subjects f) = [] <->
   filtered_df df f = [] \/
   forall n, In n subject_names -> selected n (selected_subjects f) = false).
Proof.
  set (l := filtered_df df f). set (sel := selected_subjects f).
  assert (L : length (subject_data l sel)
              = (length (filter (fun n => selected n sel) subject_names)
                 * length l)%nat).
  { unfold subject_data, subject_mapping, subject_names. cbn [flat_map filter fst snd].
    destruct (selected "SQL" sel), (selected "Excel" sel),
      (selected "Python" sel), (selected "Power BI" sel),
      (selected "English" sel);
      rewrite ?length_app, ?length_map; simpl; lia. }
  split; [exact L|].
  rewrite <- length_zero_iff_nil, L, Nat.mul_eq_0, !length_zero_iff_nil.
  split; (intros [H|H]; [right|left]); try assumption.
  - intros n Hn. destruct (selected n sel) eqn:E; [|reflexivity].
    assert (In n (filter (fun n => selected n sel) subject_names))
      by (apply filter_In; auto).
    rewrite H in *. contradiction.
  - destruct (filter (fun n => selected n sel) subject_names) as [|n m] eqn:E;
      [reflexivity|].
    assert (K : In n (filter (fun n => selected n sel) subject_names))
      by (rewrite E; now left).
    apply filter_In in K. destruct K as [K1 K2].
    rewrite (H n K1) in K2. discriminate.
Qed.

(** ** The export *)


(** ** Averages of whole-number marks *)

Lemma Zsum_bounds (zs : list Z) (lo hi : Z) :
  (forall m, In m zs -> lo <= m <= hi) ->
  Z.of_nat (length zs) * lo <= Zsum zs <= Z.of_nat (length zs) * hi.
Proof.
  induction zs as [|z zs IH]; intros H; [simpl; lia|].
  assert (B : lo <= z <= hi) by (apply H; now left).
  assert (R : Z.of_nat (length zs) * lo <= Zsum zs
              <= Z.of_nat (length zs) * hi)
    by (apply IH; intros; apply H; now right).
  change (Zsum (z :: zs)) with (z + Zsum zs).
  simpl length. rewrite Nat2Z.inj_succ. lia.
Qed.

Lemma derived_exact (r : Student) :
  derived r ->
  (average_marks r * 5 == inject_Z (total_marks r))%Q /\
  forall lo hi,
    (forall m, In m (marks r) -> lo <= m <= hi) ->
    (inject_Z lo <= average_marks r <= inject_Z hi)%Q /\
    5 * lo <= total_marks r <= 5 * hi.
Proof.
  intros [Ha Ht].
  assert (E : (average_marks r == inject_Z (total_marks r) / 5)%Q).
  { rewrite Ha, Ht. unfold round2.
    rewrite (rint_comp _ (inject_Z (20 * Zsum (marks r)))).
    - rewrite rint_inject_Z, Qred_correct.
      generalize (Zsum (marks r)). intros z.
      unfold Qeq, Qdiv, Qmult, Qinv, inject_Z. cbn [Qnum Qden].
      change (Z.pos (100 * 1)) with 100. lia.
    - rewrite <- inject_Zsum, inject_Z_mult. field. }
  split; [rewrite E; field|].
  intros lo hi B.
  pose proof (Zsum_bounds (marks r) lo hi B) as S.
  change (Z.of_nat (length (marks r))) with 5 in S. rewrite <- Ht in S.
  split; [|lia].
  rewrite E. destruct S as [S1 S2].
  rewrite (Zle_Qle (5 * lo)), inject_Z_mult in S1.
  rewrite (Zle_Qle _ (5 * hi)), inject_Z_mult in S2.
  change (inject_Z 5) with 5%Q in *.
  revert S1 S2.
  generalize (inject_Z lo), (inject_Z hi), (inject_Z (total_marks r)).
  intros a b t S1 S2. split.
  - apply Qle_shift_div_l; [reflexivity|lra].
  - apply Qle_shift_div_r; [reflexivity|lra].
Qed.


(** ** Rounding *)

Lemma rint_close (y : Q) :
  (inject_Z (rint y) - y <= 1 # 2)%Q /\ (y - inject_Z (rint y) <= 1 # 2)%Q.
Proof.
  unfold rint.
  pose proof (Qfloor_le y) as F1. pose proof (Qlt_floor y) as F2.
  rewrite inject_Z_plus in F2. change (inject_Z 1) with 1%Q in F2.
  assert (P : forall k, (inject_Z (k + 1) == inject_Z k + 1)%Q)
    by (intros k; rewrite inject_Z_plus; reflexivity).
  destruct (Qcompare (y - inject_Z (Qfloor y)) (1 # 2)) eqn:C.
  - apply Qeq_alt in C. destruct (Z.even (Qfloor y)); rewrite ?P;
      revert F1 F2 C; generalize (inject_Z (Qfloor y)); intros g F1 F2 C;
      split; lra.
  - apply Qlt_alt in C.
    revert F1 F2 C; generalize (inject_Z (Qfloor y)); intros g F1 F2 C;
      split; lra.
  - apply Qgt_alt in C. rewrite P.
    revert F1 F2 C; generalize (inject_Z (Qfloor y)); intros g F1 F2 C;
      split; lra.
Qed.

Lemma round2_close (x : Q) :
  (round2 x - x <= 1 # 200)%Q /\ (x - round2 x <= 1 # 200)%Q.
Proof.
  assert (E : (round2 x == inject_Z (rint (x * 100)) / 100)%Q).
  { unfold round2. rewrite Qred_correct.
    generalize (rint (x * 100)). intros k.
    unfold Qeq, Qdiv, Qmult, Qinv, inject_Z. cbn [Qnum Qden]. lia. }
  destruct (rint_close (x * 100)) as [H1 H2]. rewrite E.
  revert H1 H2. generalize (inject_Z (rint (x * 100))). intros k H1 H2.
  split.
  - assert (G : (k / 100 - x == (k - x * 100) / 100)%Q) by field.
    rewrite G. apply Qle_shift_div_r; [reflexivity|lra].
  - assert (G : (x - k / 100 == (x * 100 - k) / 100)%Q) by field.
    rewrite G. apply Qle_shift_div_r; [reflexivity|lra].
Qed.


(** ** More on loading *)

Lemma mapM_raises {A B : Type} (f : A -> result B) (l : list A) (e : error) :
  (forall a, In a l -> f a = Raise e \/ exists b, f a = Ok b) ->
  (exists a, In a l /\ f a = Raise e) ->
  mapM f l = Raise e.
Proof.
  induction l as [|x l IH]; intros D [a [Ha Ea]]; [contradiction|].
  simpl. destruct (D x (or_introl eq_refl)) as [E|[b E]]; rewrite E; simpl;
    [reflexivity|].
  rewrite IH; [reflexivity| |].
  - intros y Hy. apply D. now right.
  - destruct Ha as [->|Ha]; [congruence|eauto].
Qed.

Lemma to_number_cases (v : value) :
  to_number v = Raise TypeError \/ exists q, to_number v = Ok q.
Proof. destruct v; simpl; eauto. Qed.

Lemma row_mean_cases (cells : list value) :
  row_mean cells = Raise TypeError \/ exists a, row_mean cells = Ok a.
Proof.
  unfold row_mean.
  destruct (mapM to_number cells) as [qs|e] eqn:E; simpl; [eauto|].
  left. f_equal. revert e E.
  induction cells as [|v cells IH]; simpl; intros e E; [discriminate|].
  destruct (to_number_cases v) as [T|[q T]]; rewrite T in E; simpl in E;
    [congruence|].
  destruct (mapM to_number cells) as [qs|e'] eqn:E'; simpl in E;
    [discriminate|].
  inversion E. subst. now apply IH.
Qed.

Lemma row_mean_text (cells : list value) (s : string) :
  In (VStr s) cells -> row_mean cells = Raise TypeError.
Proof.
  intros H. unfold row_mean.
  rewrite (mapM_raises to_number cells TypeError); [reflexivity| |].
  - intros v _. apply to_number_cases.
  - exists (VStr s). auto.
Qed.

Lemma Forall2_In_l {A B : Type} (R : A -> B -> Prop) l m a :
  Forall2 R l m -> In a l -> exists b, In b m /\ R a b.
Proof.
  induction 1 as [|x y l m Rxy _ IH]; simpl; [contradiction|].
  intros [<-|H]; [eauto|]. destruct (IH H) as [b [Hb Rb]]. eauto.
Qed.

(** X16. A source that has the five mark columns, but text in a mark cell
    of some row, makes [load_data] fail with a [TypeError]: the mean of
    that row cannot be taken. *)
Theorem load_data_text_mark (csv : DataFrame) :
  rectangular csv -> incl subject_cols (columns csv) ->
  (exists r c s, In r (rows csv) /\ In c subject_cols /\
                 lookup csv r c = Some (VStr s)) ->
  load_data csv = Raise TypeError.
Proof.
  intros Rect Hin [r [c [s [Hr [Hc Hl]]]]]. unfold load_data.
  destruct (getitems_total csv subject_cols Rect Hin) as [sub H1].
  rewrite H1. simpl.
  destruct (getitems_spec _ _ _ H1) as [_ F1].
  unfold mean_axis1.
  rewrite (mapM_raises row_mean (rows sub) TypeError); [reflexivity| |].
  - intros cells _. apply row_mean_cases.
  - destruct (Forall2_In_l _ _ _ _ F1 Hr) as [cells [Hcells K]].
    exists cells. split; [assumption|].
    destruct (Forall2_In_l _ _ _ _ K Hc) as [v [Hv E]].
    apply (row_mean_text cells s). congruence.
Qed.

Lemma setitem_with_column df c s df' :
  setitem df c s = Ok df' -> columns df' = with_column c (columns df).
Proof.
  intros H. apply setitem_rows in H. destruct H as [_ H].
  unfold with_column. destruct (index_of c (columns df)); tauto.
Qed.

Lemma with_column_In c cols : In c (with_column c cols).
Proof.
  unfold with_column. destruct (index_of c cols) as [i|] eqn:E.
  - apply index_of_Some in E. eapply nth_error_In, E.
  - apply in_or_app. right. now left.
Qed.

(** X17. A loaded table has as many rows as its source and is
    rectangular; its header is the header of the source, in the same
    order, with the average and the total appended in that order unless
    the source already has a column of that name, which is then
    overwritten in place. *)
Theorem load_data_shape (csv df : DataFrame) :
  rectangular csv -> load_data csv = Ok df ->
  length (rows df) = length (rows csv) /\
  rectangular df /\
  columns df
  = with_column "total_marks" (with_column "average_marks" (columns csv)) /\
  (~ In "average_marks" (columns csv) -> ~ In "total_marks" (columns csv) ->
   columns df = columns csv ++ ["average_marks"; "total_marks"]) /\
  In "average_marks" (columns df) /\ In "total_marks" (columns df).
Proof.
  intros Rect L.
  destruct (load_data_steps _ _ L) as
    [sub [avg [df1 [sub' [tot [_ [_ [H3 [_ [_ H6]]]]]]]]]].
  destruct (setitem_spec _ _ _ _ Rect H3) as [Rect1 [_ F3]].
  destruct (setitem_spec _ _ _ _ Rect1 H6) as [Rect2 [_ F6]].
  pose proof (setitem_with_column _ _ _ _ H3) as C1.
  pose proof (setitem_with_column _ _ _ _ H6) as C2.
  rewrite C1 in C2.
  split; [rewrite <- (Forall2_length F6); symmetry; apply (Forall2_length F3)|].
  split; [exact Rect2|]. split; [exact C2|]. split; [|split].
  - intros Na Nt. rewrite C2. unfold with_column.
    apply index_of_None in Na. rewrite Na.
    assert (Nt' : index_of "total_marks" (columns csv ++ ["average_marks"])
                  = None).
    { apply index_of_None. intros C. apply in_app_or in C.
      destruct C as [C|[C|[]]]; [contradiction|discriminate]. }
    rewrite Nt', <- app_assoc. reflexivity.
  - rewrite C2. unfold with_column at 1.
    destruct (index_of "total_marks" _) eqn:E.
    + apply with_column_In.
    + apply in_or_app. left. apply with_column_In.
  - rewrite C2. apply with_column_In.
Qed.

Lemma replace_nth_id i v r : nth_error r i = Some v -> replace_nth i v r = r.
Proof.
  revert i. induction r as [|x r IH]; intros [|i]; simpl; try discriminate.
  - intros H. now inversion H.
  - intros H. now rewrite IH.
Qed.

Lemma setitem_same df c s :
  In c (columns df) ->
  Forall2 (fun r v => lookup df r c = Some v) (rows df) s ->
  setitem df c s = Ok df.
Proof.
  intros Hin F. unfold setitem.
  rewrite <- (Forall2_length F), Nat.eqb_refl. simpl.
  destruct (index_of c (columns df)) as [i|] eqn:I.
  - assert (E : zip_with (fun r v => replace_nth i v r) (rows df) s = rows df).
    { unfold lookup in F. rewrite I in F. clear -F.
      induction F as [|r v l m H _ IH]; simpl; [reflexivity|].
      now rewrite (replace_nth_id _ _ _ H), IH. }
    rewrite E. now destruct df.
  - apply index_of_None in I. contradiction.
Qed.

Lemma getitems_columns df cs sub :
  getitems df cs = Ok sub -> incl cs (columns df).
Proof.
  unfold getitems.
  destruct (mapM (get_loc df) cs) as [idx|] eqn:E; simpl; [|discriminate].
  intros _ c Hc. apply mapM_Forall2 in E.
  destruct (Forall2_In_l _ _ _ _ E Hc) as [i [_ Hi]].
  unfold get_loc in Hi.
  destruct (index_of c (columns df)) as [j|] eqn:J; [|discriminate].
  apply index_of_Some in J. eapply nth_error_In, J.
Qed.

Lemma Forall2_eq_list {A : Type} (l m : list A) : Forall2 eq l m -> l = m.
Proof. induction 1; congruence. Qed.

Lemma Forall2_transport {A B : Type} (g h : A -> option B) cs vs :
  (forall c, In c cs -> g c = h c) ->
  Forall2 (fun c v => g c = Some v) cs vs ->
  Forall2 (fun c v => h c = Some v) cs vs.
Proof.
  intros E F. induction F as [|c v cs vs H _ IH]; constructor.
  - rewrite <- E; [assumption|now left].
  - apply IH. intros c' Hc. apply E. now right.
Qed.

(** Frames that agree on the selected columns have the same selection. *)
Lemma getitems_rows_eq a b cs sa sb :
  getitems a cs = Ok sa -> getitems b cs = Ok sb ->
  Forall2 (fun ra rb => forall c, In c cs -> lookup b rb c = lookup a ra c)
          (rows a) (rows b) ->
  rows sb = rows sa.
Proof.
  intros Ha Hb F.
  apply getitems_spec in Ha, Hb. destruct Ha as [_ Fa], Hb as [_ Fb].
  apply Forall2_eq_list. apply Forall2_pointwise.
  - rewrite <- (Forall2_length Fb), <- (Forall2_length Fa).
    symmetry. apply (Forall2_length F).
  - intros i cb ca Hcb Hca.
    destruct (Forall2_nth_r _ _ _ _ _ Fb Hcb) as [rb [Hrb Kb]].
    destruct (Forall2_nth_r _ _ _ _ _ Fa Hca) as [ra [Hra Ka]].
    destruct (Forall2_nth_l _ _ _ _ _ F Hra) as [rb' [Hrb' E]].
    assert (rb' = rb) by congruence. subst rb'.
    apply (Forall2_functional (lookup a ra) cs); [|exact Ka].
    apply (Forall2_transport (lookup b rb)); assumption.
Qed.

Lemma Forall2_chain_lookup (df1 df : DataFrame) (c : string) s :
  Forall2 (fun r1 v => lookup df1 r1 c = Some v) (rows df1) s ->
  Forall2 (fun r1 r => lookup df r c = lookup df1 r1 c) (rows df1) (rows df) ->
  Forall2 (fun r v => lookup df r c = Some v) (rows df) s.
Proof.
  intros F G. apply Forall2_pointwise.
  - rewrite <- (Forall2_length G). apply (Forall2_length F).
  - intros i r v Hr Hv.
    destruct (Forall2_nth_r _ _ _ _ _ G Hr) as [r1 [Hr1 E]].
    destruct (Forall2_nth_l _ _ _ _ _ F Hr1) as [v' [Hv' K]].
    congruence.
Qed.

(** X18. Loading a loaded table again gives the same table: the average
    and the total are recomputed from the same marks and overwrite equal
    values. *)
Theorem load_data_idempotent (csv df : DataFrame) :
  rectangular csv -> load_data csv = Ok df -> load_data df = Ok df.
Proof.
  intros Rect L.
  destruct (load_data_steps _ _ L) as
    [sub [avg [df1 [sub' [tot [H1 [H2 [H3 [H4 [H5 H6]]]]]]]]]].
  destruct (setitem_spec _ _ _ _ Rect H3) as [Rect1 [F3b F3c]].
  destruct (setitem_spec _ _ _ _ Rect1 H6) as [Rect2 [F6b F6c]].
  pose proof (setitem_with_column _ _ _ _ H3) as C1.
  pose proof (setitem_with_column _ _ _ _ H6) as C2.
  assert (Ia : In "average_marks" (columns df)).
  { apply (setitem_columns _ _ _ _ H6). rewrite C1. apply with_column_In. }
  assert (It : In "total_marks" (columns df))
    by (rewrite C2; apply with_column_In).
  destruct (getitems_total df subject_cols Rect2) as [subd Hd].
  { eapply incl_tran; [exact (getitems_columns _ _ _ H4)|].
    exact (setitem_columns _ _ _ _ H6). }
  assert (E1 : rows sub' = rows sub).
  { apply (getitems_rows_eq csv df1 subject_cols); try assumption.
    eapply Forall2_impl; [|exact F3c]. intros r0 r1 K c Hc. apply K.
    now apply subject_cols_not_derived. }
  assert (E2 : rows subd = rows sub').
  { apply (getitems_rows_eq df1 df subject_cols); try assumption.
    eapply Forall2_impl; [|exact F6c]. intros r1 r K c Hc. apply K.
    now apply subject_cols_not_derived. }
  assert (Sa : setitem df "average_marks" (round_series avg) = Ok df).
  { apply setitem_same; [exact Ia|].
    apply (Forall2_chain_lookup df1 df); [exact F3b|].
    eapply Forall2_impl; [|exact F6c]. intros r1 r K. apply K. discriminate. }
  assert (St : setitem df "total_marks" tot = Ok df)
    by (apply setitem_same; assumption).
  unfold load_data. rewrite Hd. simpl.
  unfold mean_axis1 in *. rewrite E2, E1, H2. simpl.
  rewrite Sa. simpl. rewrite Hd. simpl.
  unfold sum_axis1 in *. rewrite E2, H5. simpl. exact St.
Qed.

Lemma Qsum_perm (l m : list Q) : Permutation l m -> (Qsum l == Qsum m)%Q.
Proof.
  induction 1 as [|x l m _ IH|x y l|l m n _ IH1 _ IH2]; simpl.
  - reflexivity.
  - now rewrite IH.
  - ring.
  - now rewrite IH1.
Qed.

Lemma Qsum_map_ext {A : Type} (g h : A -> Q) (l : list A) :
  (forall x, In x l -> (g x == h x)%Q) ->
  (Qsum (map g l) == Qsum (map h l))%Q.
Proof.
  induction l as [|x l IH]; intros E; simpl; [reflexivity|].
  rewrite (E x (or_introl eq_refl)), IH; [reflexivity|].
  intros y Hy. apply E. now right.
Qed.

Lemma Qsum_map_plus {A : Type} (g h : A -> Q) (l : list A) :
  (Qsum (map (fun x => g x + h x) l) == Qsum (map g l) + Qsum (map h l))%Q.
Proof.
  induction l as [|x l IH]; simpl; [reflexivity|]. rewrite IH. ring.
Qed.

Lemma Qsum_map_zero {A : Type} (l : list A) :
  (Qsum (map (fun _ => 0) l) == 0)%Q.
Proof. induction l as [|x l IH]; simpl; [reflexivity|]. rewrite IH. ring. Qed.

Lemma Qindicator_sum (ks : list string) (k : string) (v : Q) :
  NoDup ks -> In k ks ->
  (Qsum (map (fun k' => if String.eqb k k' then v else 0) ks) == v)%Q.
Proof.
  induction 1 as [|k0 ks N _ IH]; simpl; [contradiction|].
  intros [->|H].
  - rewrite String.eqb_refl.
    rewrite (Qsum_map_ext _ (fun _ => 0%Q)).
    + rewrite Qsum_map_zero. ring.
    + intros x Hx. destruct (String.eqb k x) eqn:E; [|reflexivity].
      apply String.eqb_eq in E. subst. contradiction.
  - destruct (String.eqb k k0) eqn:E.
    + apply String.eqb_eq in E. subst. contradiction.
    + rewrite (IH H). ring.
Qed.

(** Summing a column group by group gives the sum of the column. *)
Lemma Qsum_groups {A : Type} (key : A -> string) (g : A -> Q)
  (ks : list string) (l : list A) :
  NoDup ks -> (forall r, In r l -> In (key r) ks) ->
  (Qsum (map (fun k => Qsum (map g (filter (fun r => String.eqb (key r) k) l)))
             ks)
   == Qsum (map g l))%Q.
Proof.
  intros N. induction l as [|r l IH]; intros Hin.
  - simpl. apply Qsum_map_zero.
  - rewrite (Qsum_map_ext _
      (fun k => (if String.eqb (key r) k then g r else 0)
                + Qsum (map g (filter (fun r => String.eqb (key r) k) l)))%Q).
    + rewrite Qsum_map_plus, IH.
      * rewrite Qindicator_sum; [reflexivity|exact N|].
        apply Hin. now left.
      * intros r' Hr. apply Hin. now right.
    + intros k _. simpl. destruct (String.eqb (key r) k); simpl; ring.
Qed.

Lemma weighted_group_mean (l : list Student) (k : string) :
  (match mean (map average_marks
                   (filter (fun r => String.eqb (location r) k) l)) with
   | Some m => inject_Z (Z.of_nat (count String.eqb k (map location l))) * m
   | None => 0
   end
   == Qsum (map average_marks
                (filter (fun r => String.eqb (location r) k) l)))%Q.
Proof.
  rewrite count_map.
  rewrite (filter_ext (fun r => String.eqb k (location r))
                      (fun r => String.eqb (location r) k))
    by (intros r; apply String.eqb_sym).
  destruct (filter (fun r => String.eqb (location r) k) l) as [|r g] eqn:E.
  - simpl. reflexivity.
  - unfold mean. rewrite length_map.
    generalize (Qsum (map average_marks (r :: g))). intros s.
    cbn [map]. 
    assert (P : ~ (inject_Z (Z.of_nat (length (r :: g))) == 0)%Q).
    { simpl length. rewrite Nat2Z.inj_succ. unfold Qeq. simpl. lia. }
    field. exact P.
Qed.


(** * The properties on the sample tables *)

Lemma sample_csv_rectangular : rectangular sample_csv.
Proof. repeat constructor. Defined.

Lemma sample_csv_numeric : numeric_marks sample_csv.
Proof.
  intros r c v Hr Hc. simpl in Hr, Hc.
  destruct Hr as [<-|[<-|[<-|[]]]];
    destruct Hc as [<-|[<-|[<-|[<-|[<-|[]]]]]];
    vm_compute; intros H; inversion H; eexists; reflexivity.
Defined.

Lemma sample_derived : Forall derived sample.
Proof. repeat constructor. Defined.

Lemma filtered_df_conjunctive_witness :
  In student_1 (filtered_df sample show_ny) <->
  In student_1 sample /\
  (selected_location show_ny <> "All" ->
   location student_1 = selected_location show_ny) /\
  (fst (age_range show_ny) <= age student_1 <= snd (age_range show_ny)) /\
  (inject_Z (min_avg show_ny) <= average_marks student_1)%Q.
Proof. exact (filtered_df_conjunctive sample show_ny student_1). Defined.


Lemma top_students_largest_witness :
  exists top rest : list Student,
    top_students (filtered_df sample show_all) = map performer top /\
    Permutation (filtered_df sample show_all) (top ++ rest) /\
    (forall a b, In a top -> In b rest ->
                 (average_marks b <= average_marks a)%Q) /\
    length (top_students (filtered_df sample show_all))
    = Nat.min 10 (length (filtered_df sample show_all)) /\
    StronglySorted (fun a b => (p_average_marks b <= p_average_marks a)%Q)
                   (top_students (filtered_df sample show_all)) /\
    (forall q : Q,
        filter (fun r => Qeq_bool (average_marks r) q)
               (filtered_df sample show_all)
        = filter (fun r => Qeq_bool (average_marks r) q) top
          ++ filter (fun r => Qeq_bool (average_marks r) q) rest) /\
    subseq (filtered_df sample show_all) sample.
Proof. exact (top_students_largest sample show_all). Defined.

Lemma filtered_df_monotonic_witness :
  widens show_ny show_all /\
  (length (filtered_df sample show_ny)
   <= length (filtered_df sample show_all))%nat.
Proof.
  split; [exact (widen_location show_ny)|].
  apply (filtered_df_monotonic sample show_ny show_all).
  exact (widen_location show_ny).
Defined.



Lemma filtered_df_subsequence_witness :
  subseq (filtered_df sample show_ny) sample /\
  (forall r, In r (filtered_df sample show_ny) -> In r sample) /\
  tbl_df (apply_filters sample show_ny) = sample /\
  tbl_filtered_df (apply_filters sample show_ny)
  = filtered_df sample show_ny.
Proof. exact (filtered_df_subsequence sample show_ny). Defined.



Lemma subject_selection_scope_witness :
  filtered_df sample (with_subjects show_all ["SQL"])
  = filtered_df sample show_all /\
  v_subject_data (views sample (filtered_df sample show_all)
                        (with_subjects show_all ["SQL"]))
  = [("SQL", 80); ("SQL", 50); ("SQL", 100)].
Proof.
  destruct (subject_selection_scope sample show_all ["SQL"]) as [E _].
  split; [exact E|]. vm_compute; reflexivity.
Defined.

Lemma load_data_schema_witness :
  (exists c, In c subject_cols /\ ~ In c (columns no_english_csv)) /\
  (exists c, In c subject_cols /\ ~ In c (columns no_english_csv) /\
             load_data no_english_csv = Raise (KeyError c)) /\
  incl subject_cols (columns sample_csv) /\
  rectangular sample_csv /\ numeric_marks sample_csv /\
  (exists df, load_data sample_csv = Ok df).
Proof.
  assert (M : exists c, In c subject_cols /\
                        ~ In c (columns no_english_csv)).
  { exists "english_marks". split; [simpl; tauto|].
    simpl. intros H.
    repeat (destruct H as [H|H]; [discriminate|]). exact H. }
  assert (I : incl subject_cols (columns sample_csv)).
  { intros c Hc. simpl in Hc |- *.
    repeat (destruct Hc as [<-|Hc]; [tauto|]). contradiction. }
  split; [exact M|].
  split; [exact (proj1 (load_data_schema no_english_csv) M)|].
  split; [exact I|].
  split; [exact sample_csv_rectangular|].
  split; [exact sample_csv_numeric|].
  exact (proj2 (load_data_schema sample_csv) I sample_csv_rectangular
               sample_csv_numeric).
Defined.

(** C8, as the specification words it, fails on a source that has the
    five mark columns and no identifier, location or age column:
    [load_data] returns its table with the two derived columns. *)
Lemma load_data_without_identity_columns :
  ~ In "student_id" (columns marks_only_csv) /\
  ~ In "location" (columns marks_only_csv) /\
  ~ In "age" (columns marks_only_csv) /\
  load_data marks_only_csv
  = Ok {| columns := ["sql_marks"; "excel_marks"; "python_marks";
                      "power_bi_marks"; "english_marks"; "average_marks";
                      "total_marks"];
          rows := [[VInt 80; VInt 90; VInt 70; VInt 60; VInt 100;
                    VFloat 80; VInt 400]] |}.
Proof.
  assert (N : forall c, existsb (String.eqb c) (columns marks_only_csv) = false
                        -> ~ In c (columns marks_only_csv)).
  { intros c E H. assert (T : existsb (String.eqb c) (columns marks_only_csv)
                              = true).
    { apply existsb_exists. exists c. split; [exact H|apply String.eqb_refl]. }
    congruence. }
  split; [apply N; reflexivity|].
  split; [apply N; reflexivity|].
  split; [apply N; reflexivity|].
  vm_compute; reflexivity.
Qed.

(** ** The examples of the specification *)

(** Three students, two in NY and one in LA, filtered on NY: two rows, one
    location mean, two top performers. *)
Example sample_filtered_on_ny :
  filtered_df sample show_ny = [student_1; student_2] /\
  map fst (location_avg (filtered_df sample show_ny)) = ["NY"] /\
  Forall (fun p => float_is 65 (snd p) = true)
         (location_avg (filtered_df sample show_ny)) /\
  length (top_students (filtered_df sample show_ny)) = 2%nat.
Proof.
  split; [vm_compute; reflexivity|].
  split; [vm_compute; reflexivity|].
  split; [repeat constructor|vm_compute; reflexivity].
Qed.

(** A minimum average of 101 leaves no row and the page shows the
    warning. *)
Example sample_threshold_101 :
  filtered_df sample show_none = [] /\ dashboard sample show_none = NoMatch.
Proof. split; vm_compute; reflexivity. Qed.

(** A location with a comma and a quote in it is quoted in the export and
    read back whole. *)
Example quoted_location :
  let r := {| student_id := "S9"; location := "Paris, " ++ String dquote "FR";
              age := 30; sql_marks := 1; excel_marks := 2; python_marks := 3;
              power_bi_marks := 4; english_marks := 6;
              average_marks := 16 # 5; total_marks := 16 |} in
  read_csv (to_csv [r]) = Some [r].
Proof. vm_compute; reflexivity. Qed.

(** The statistics of a single row have no standard deviation, and those
    of no row have no mean: the page guards the second case only. *)
Example describe_short_columns :
  d_std (describe [80%Q]) = None /\ d_mean (describe [80%Q]) = Some 80%Q /\
  d_mean (describe []) = None.
Proof. repeat split; vm_compute; reflexivity. Qed.

(** ** Further properties on the sample tables *)

Lemma sample_rendered :
  dashboard sample show_all = Rendered (views sample sample show_all).
Proof. reflexivity. Defined.

Lemma sample_loaded : load_data sample_csv = Ok sample_df.
Proof. vm_compute; reflexivity. Defined.

Lemma filtered_df_composes_witness :
  filtered_df (filtered_df sample show_ny) show_ny = filtered_df sample show_ny
  /\ filtered_df (filtered_df sample show_ny) show_all
     = filtered_df (filtered_df sample show_all) show_ny.
Proof.
  destruct (filtered_df_composes sample [] [] show_ny show_all) as [A [B _]].
  split; [exact A|exact B].
Defined.

Lemma age_bounds_spec_witness :
  exists lo hi,
    age_bounds sample = Ok (lo, hi) /\
    (forall r, In r sample -> lo <= age r <= hi).
Proof.
  destruct (age_bounds_spec sample) as [lo [hi [E [B _]]]].
  exists lo, hi. split; [exact E|exact B].
Defined.


Lemma all_locations_spec_witness :
  all_locations sample = ["All"; "LA"; "NY"] /\
  filtered_df sample show_ny <> [].
Proof.
  split; [vm_compute; reflexivity|].
  destruct (all_locations_spec sample) as [locs [_ [_ [_ [M K]]]]].
  apply K.
  - apply M. exists student_1. split; [left; reflexivity|reflexivity].
  - intros r [<-|[<-|[<-|[]]]]; split; vm_compute; reflexivity.
Defined.


Lemma top_score_is_first_performer_witness :
  dashboard sample show_all = Rendered (views sample sample show_all) /\
  exists p rest t,
    v_top_students (views sample sample show_all) = p :: rest /\
    m_top_score (v_metrics (views sample sample show_all)) = Some t /\
    (p_average_marks p == t)%Q.
Proof.
  split; [exact sample_rendered|].
  apply (top_score_is_first_performer sample show_all). exact sample_rendered.
Defined.

Lemma best_subjects_spec_witness :
  dashboard sample show_all = Rendered (views sample sample show_all) /\
  map (fun x => fst (fst x))
      (v_best_subjects (views sample sample show_all))
  = subject_names.
Proof.
  split; [exact sample_rendered|].
  destruct (best_subjects_spec sample show_all _ sample_rendered) as [A _].
  exact A.
Defined.

Lemma location_counts_spec_witness :
  In ("NY", 2%nat) (location_counts (filtered_df sample show_all)) /\
  list_sum (map snd (location_counts (filtered_df sample show_all)))
  = length (filtered_df sample show_all).
Proof.
  destruct (location_counts_spec sample show_all) as [_ [M [_ [_ S]]]].
  split; [|exact S].
  apply M. split; [|vm_compute; reflexivity].
  exists student_1. split; [left; reflexivity|reflexivity].
Defined.

Lemma age_counts_spec_witness :
  In (22, 1%nat) (age_counts (filtered_df sample show_all)) /\
  list_sum (map snd (age_counts (filtered_df sample show_all)))
  = length (filtered_df sample show_all).
Proof.
  destruct (age_counts_spec sample show_all) as [_ [M [_ S]]].
  split; [|exact S].
  apply M. split; [|vm_compute; reflexivity].
  exists student_2. split; [right; left; reflexivity|reflexivity].
Defined.

Lemma heatmap_data_spec_witness :
  NoDup (map fst (heatmap_data (filtered_df sample show_all))) /\
  Permutation (map fst (heatmap_data (filtered_df sample show_all)))
              (map fst (location_avg (filtered_df sample show_all))).
Proof.
  destruct (heatmap_data_spec sample show_all) as [_ [A [_ [B _]]]].
  split; [exact A|exact B].
Defined.

Lemma stats_df_spec_witness :
  map fst (stats_df (filtered_df one_student show_all)) = subject_names /\
  Forall (fun s => d_std (snd s) = None)
         (stats_df (filtered_df one_student show_all)).
Proof.
  destruct (stats_df_spec one_student show_all) as [A B].
  split; [exact A|].
  eapply Forall_impl; [|exact B].
  intros s [_ [_ K]]. apply K. simpl. lia.
Defined.


Lemma subject_data_size_witness :
  length (subject_data (filtered_df sample show_all)
                       (selected_subjects show_all))
  = (5 * length (filtered_df sample show_all))%nat.
Proof.
  destruct (subject_data_size sample show_all) as [A _]. exact A.
Defined.




Lemma load_data_text_mark_witness :
  rectangular text_mark_csv /\ incl subject_cols (columns text_mark_csv) /\
  load_data text_mark_csv = Raise TypeError.
Proof.
  assert (R : rectangular text_mark_csv) by (repeat constructor).
  assert (I : incl subject_cols (columns text_mark_csv))
    by (intros c Hc; exact Hc).
  split; [exact R|]. split; [exact I|].
  apply (load_data_text_mark text_mark_csv R I).
  exists [VStr "absent"; VInt 90; VInt 70; VInt 60; VInt 100],
         "sql_marks", "absent".
  split; [right; left; reflexivity|].
  split; [left; reflexivity|vm_compute; reflexivity].
Defined.

Lemma load_data_shape_witness :
  rectangular sample_csv /\ load_data sample_csv = Ok sample_df /\
  length (rows sample_df) = length (rows sample_csv) /\
  columns sample_df = columns sample_csv ++ ["average_marks"; "total_marks"].
Proof.
  split; [exact sample_csv_rectangular|].
  split; [exact sample_loaded|].
  destruct (load_data_shape sample_csv sample_df sample_csv_rectangular
                            sample_loaded) as [A [_ [_ [B _]]]].
  split; [exact A|].
  apply B; vm_compute; intros H;
    repeat (destruct H as [H|H]; [discriminate|]); exact H.
Defined.

Lemma load_data_idempotent_witness :
  rectangular sample_csv /\ load_data sample_csv = Ok sample_df /\
  load_data sample_df = Ok sample_df.
Proof.
  split; [exact sample_csv_rectangular|].
  split; [exact sample_loaded|].
  apply (load_data_idempotent sample_csv sample_df).
  - exact sample_csv_rectangular.
  - exact sample_loaded.
Defined.
